(** * andocent: the place store and its filter

    A shallow embedding of [usePlaceStore] (src/store/index.ts): the
    store's state, its [set]/[get] discipline, the nine actions and the
    three-stage place filter that [filterPlaces] caches in
    [filteredPlaces].

    Two readings of the place store are given.  The first takes places
    and updates at their declared types ([Place.t], [Place.partial]).
    The second, [Runtime], takes them as the objects they are at run
    time, whose keys may hold [undefined], and keeps the state an
    action has written when it throws; on values of the declared types
    the two agree ([runtime_agrees_on_typed]).

    Strings.  A JavaScript string is a sequence of UTF-16 code units.
    The embedding covers the strings all of whose code units are below
    256 (the Latin-1 range): one [ascii] is one code unit.  On that range
    [toLowerCase], [trim] and [includes] below are the ECMAScript
    operations. *)

From Stdlib Require Import Bool Arith ZArith Lia List Ascii String.
From Stdlib Require Import DecimalString DecimalN.
Import ListNotations.
Local Open Scope string_scope.

Set Implicit Arguments.

(* ------------------------------------------------------------------ *)
(** ** String.prototype operations used by the store                   *)
(* ------------------------------------------------------------------ *)

(** ECMAScript WhiteSpace and LineTerminator code units below 256:
    TAB, LF, VT, FF, CR, SP and NBSP. *)
Definition isWhiteSpace (c : ascii) : bool :=
  let n := nat_of_ascii c in
  (((9 <=? n) && (n <=? 13)) || (n =? 32) || (n =? 160))%nat.

(** Code units with a distinct lower-case form: A-Z, and U+00C0..U+00DE
    except the multiplication sign U+00D7. *)
Definition isUpperCaseUnit (c : ascii) : bool :=
  let n := nat_of_ascii c in
  (((65 <=? n) && (n <=? 90)) ||
   ((192 <=? n) && (n <=? 222) && negb (n =? 215)))%nat.

Definition toLowerCaseUnit (c : ascii) : ascii :=
  if isUpperCaseUnit c then ascii_of_nat (nat_of_ascii c + 32) else c.

(** [s.toLowerCase()] *)
Fixpoint toLowerCase (s : string) : string :=
  match s with
  | EmptyString => EmptyString
  | String c s' => String (toLowerCaseUnit c) (toLowerCase s')
  end.

Fixpoint trimStart (s : string) : string :=
  match s with
  | EmptyString => EmptyString
  | String c s' => if isWhiteSpace c then trimStart s' else s
  end.

Fixpoint trimEnd (s : string) : string :=
  match s with
  | EmptyString => EmptyString
  | String c s' =>
      match trimEnd s' with
      | EmptyString => if isWhiteSpace c then EmptyString else String c EmptyString
      | t => String c t
      end
  end.

(** [s.trim()]: white space removed from both ends. *)
Definition trim (s : string) : string := trimEnd (trimStart s).

(** [s] begins with [needle]. *)
Fixpoint startsWith (needle s : string) : bool :=
  match needle, s with
  | EmptyString, _ => true
  | String _ _, EmptyString => false
  | String a needle', String b s' => Ascii.eqb a b && startsWith needle' s'
  end.

(** [s.includes(needle)]: [needle] occurs in [s] at some position. *)
Fixpoint includes (s needle : string) : bool :=
  startsWith needle s ||
  match s with
  | EmptyString => false
  | String _ s' => includes s' needle
  end.

(* ------------------------------------------------------------------ *)
(** ** JavaScript values and completions                               *)
(* ------------------------------------------------------------------ *)

(** The values the filter's expressions evaluate to. *)
Inductive jsval : Type :=
| JUndefined
| JNull
| JBool (b : bool)
| JString (s : string).

(** ToBoolean. *)
Definition toBoolean (v : jsval) : bool :=
  match v with
  | JUndefined | JNull => false
  | JBool b => b
  | JString s => negb (String.eqb s "")
  end.

(** An evaluation either completes normally or throws a TypeError. *)
Inductive completion (A : Type) : Type :=
| Normal (a : A)
| Throw.
Arguments Normal {A} a.
Arguments Throw {A}.

Definition cbind {A B} (c : completion A) (k : A -> completion B) : completion B :=
  match c with
  | Normal a => k a
  | Throw => Throw
  end.

(** [recv.toLowerCase()]: a TypeError unless the receiver is a string. *)
Definition callToLowerCase (recv : jsval) : completion jsval :=
  match recv with
  | JString s => Normal (JString (toLowerCase s))
  | _ => Throw
  end.

(** [recv.includes(arg)] on a string receiver and a string argument. *)
Definition callIncludes (recv arg : jsval) : completion jsval :=
  match recv, arg with
  | JString s, JString needle => Normal (JBool (includes s needle))
  | _, _ => Throw
  end.

(** [recv?.rest]: [undefined] when the receiver is null or undefined,
    without evaluating the rest of the chain. *)
Definition optionalChain (recv : jsval) (rest : jsval -> completion jsval)
  : completion jsval :=
  match recv with
  | JUndefined | JNull => Normal JUndefined
  | _ => rest recv
  end.

(** [l || r]: the left value when it is truthy, otherwise the right
    operand, which is evaluated only then. *)
Definition logicalOr (l r : completion jsval) : completion jsval :=
  cbind l (fun v => if toBoolean v then Normal v else r).

(** [arr.filter(cb)]: a new array of the elements whose callback result
    is truthy, in the order of [arr]; a throwing callback aborts. *)
Fixpoint arrayFilter {A} (cb : A -> completion jsval) (arr : list A)
  : completion (list A) :=
  match arr with
  | [] => Normal []
  | x :: arr' =>
      cbind (cb x) (fun v =>
      cbind (arrayFilter cb arr') (fun kept =>
      Normal (if toBoolean v then x :: kept else kept)))
  end.

(** [arr.map(f)] *)
Definition arrayMap {A B} (f : A -> B) (arr : list A) : list B := map f arr.

(** [a === b] *)
Definition strictEquals (a b : jsval) : bool :=
  match a, b with
  | JUndefined, JUndefined => true
  | JNull, JNull => true
  | JBool x, JBool y => Bool.eqb x y
  | JString x, JString y => String.eqb x y
  | _, _ => false
  end.

(** A [string | null] field as a value. *)
Definition ofNullable (o : option string) : jsval :=
  match o with
  | Some s => JString s
  | None => JNull
  end.

(* ------------------------------------------------------------------ *)
(** ** Data model                                                      *)
(* ------------------------------------------------------------------ *)

(** The store never computes with the coordinates of a place: they are
    carried as fixed-point integers (micro-degrees). *)
Definition number := Z.

(** One key of an object spread or of a merge: the later object wins
    when it has the key. *)
Definition override {A} (old : A) (new : option A) : A :=
  match new with
  | Some v => v
  | None => old
  end.

(** The content of a key: a value of the declared type, or
    [undefined]. *)
Inductive slot (T : Type) : Type :=
| Defined (v : T)
| Undefined.
Arguments Defined {T} v.
Arguments Undefined {T}.

Definition slotString (x : slot string) : jsval :=
  match x with
  | Defined s => JString s
  | Undefined => JUndefined
  end.

Definition slotNullable (x : slot (option string)) : jsval :=
  match x with
  | Defined o => ofNullable o
  | Undefined => JUndefined
  end.

Definition slotBool (x : slot bool) : jsval :=
  match x with
  | Defined b => JBool b
  | Undefined => JUndefined
  end.

(** An optional key of the typed record as the content of the key. *)
Definition slotOfOptional {T} (o : option T) : slot T :=
  match o with
  | Some v => Defined v
  | None => Undefined
  end.

(** Modelled from the spec: the Prisma-generated [Category] type is not
    among the sources; a category is a named classification group that
    places reference by identifier. *)
Module Category.
Record t : Type := mk {
  id : string;
  name : string
}.
End Category.

(** Modelled from the spec: the Prisma-generated [PlaceImage] and
    [ChatHistory] types are not among the sources, and the store never
    looks into them; each is represented by its identifier. *)
Record PlaceImage : Type := mkPlaceImage { imageId : string }.
Record ChatHistory : Type := mkChatHistory { chatId : string }.

Module Place.
(** [PlaceWithRelations]: a [Place] with its [category] and, optionally,
    its [images] and [chatHistories].

    Modelled from the spec: the Prisma-generated [Place] type is not
    among the sources; its fields are those of the specification's data
    model, [description] and [cuisine] being the nullable ones. *)
Record t : Type := mk {
  id : string;
  name : string;
  address : string;
  description : option string;
  cuisine : option string;
  categoryId : string;
  isActive : bool;
  latitude : number;
  longitude : number;
  category : Category.t;
  images : option (list PlaceImage);
  chatHistories : option (list ChatHistory)
}.

(** [Partial<PlaceWithRelations>]: each key present, with its value, or
    absent.  A present key that holds [undefined] is covered by
    [PlaceObject.partial]. *)
Record partial : Type := mkPartial {
  id' : option string;
  name' : option string;
  address' : option string;
  description' : option (option string);
  cuisine' : option (option string);
  categoryId' : option string;
  isActive' : option bool;
  latitude' : option number;
  longitude' : option number;
  category' : option Category.t;
  images' : option (option (list PlaceImage));
  chatHistories' : option (option (list ChatHistory))
}.

(** [{ ...place, ...updates }] *)
Definition spread (place : t) (updates : partial) : t :=
  {| id := override (id place) (id' updates);
     name := override (name place) (name' updates);
     address := override (address place) (address' updates);
     description := override (description place) (description' updates);
     cuisine := override (cuisine place) (cuisine' updates);
     categoryId := override (categoryId place) (categoryId' updates);
     isActive := override (isActive place) (isActive' updates);
     latitude := override (latitude place) (latitude' updates);
     longitude := override (longitude place) (longitude' updates);
     category := override (category place) (category' updates);
     images := override (images place) (images' updates);
     chatHistories := override (chatHistories place) (chatHistories' updates) |}.
End Place.

(** [PlaceState], the data part. *)
Record PlaceState : Type := mkPlaceState {
  places : list Place.t;
  categories : list Category.t;
  selectedPlace : option Place.t;
  filteredPlaces : list Place.t;
  searchQuery : string;
  selectedCategoryId : option string
}.

(** The object literal handed to zustand's [set]: the keys it mentions. *)
Record PlaceStatePatch : Type := mkPatch {
  places' : option (list Place.t);
  categories' : option (list Category.t);
  selectedPlace' : option (option Place.t);
  filteredPlaces' : option (list Place.t);
  searchQuery' : option string;
  selectedCategoryId' : option (option string)
}.

(** [set(patch)] merges the patch into the state, key by key. *)
Definition merge (s : PlaceState) (patch : PlaceStatePatch) : PlaceState :=
  {| places := override (places s) (places' patch);
     categories := override (categories s) (categories' patch);
     selectedPlace := override (selectedPlace s) (selectedPlace' patch);
     filteredPlaces := override (filteredPlaces s) (filteredPlaces' patch);
     searchQuery := override (searchQuery s) (searchQuery' patch);
     selectedCategoryId :=
       override (selectedCategoryId s) (selectedCategoryId' patch) |}.

(* ------------------------------------------------------------------ *)
(** ** The store monad: [get], [set] and exceptions                    *)
(* ------------------------------------------------------------------ *)

Definition store (A : Type) : Type := PlaceState -> completion (A * PlaceState).

Definition ret {A} (a : A) : store A := fun s => Normal (a, s).

Definition bind {A B} (m : store A) (k : A -> store B) : store B :=
  fun s => cbind (m s) (fun r => k (fst r) (snd r)).

Definition get : store PlaceState := fun s => Normal (s, s).

Definition set (patch : PlaceStatePatch) : store unit :=
  fun s => Normal (tt, merge s patch).

Definition lift {A} (c : completion A) : store A :=
  fun s => cbind c (fun a => Normal (a, s)).

Declare Scope store_scope.
Delimit Scope store_scope with store.
Notation "x <- m ;; k" := (bind m (fun x => k))
  (at level 61, m at next level, right associativity) : store_scope.
Notation "m ;; k" := (bind m (fun _ => k))
  (at level 61, right associativity) : store_scope.

(** The state an action leaves behind. *)
Definition exec {A} (m : store A) (s : PlaceState) : completion PlaceState :=
  cbind (m s) (fun r => Normal (snd r)).

(* ------------------------------------------------------------------ *)
(** ** The filter                                                      *)
(* ------------------------------------------------------------------ *)

(** [recv.toLowerCase().includes(searchQuery.toLowerCase())] *)
Definition lowerIncludes (searchQuery : string) (recv : jsval) : completion jsval :=
  cbind (callToLowerCase recv) (fun lowered =>
  cbind (callToLowerCase (JString searchQuery)) (fun needle =>
  callIncludes lowered needle)).

(** The callback of the text stage:
    [name... || address... || description?.... || cuisine?....] *)
Definition textCallback (searchQuery : string) (place : Place.t) : completion jsval :=
  logicalOr
    (logicalOr
       (logicalOr
          (lowerIncludes searchQuery (JString (Place.name place)))
          (lowerIncludes searchQuery (JString (Place.address place))))
       (optionalChain (ofNullable (Place.description place))
                      (lowerIncludes searchQuery)))
    (optionalChain (ofNullable (Place.cuisine place))
                   (lowerIncludes searchQuery)).

(** The callback of the category stage:
    [place.categoryId === selectedCategoryId] *)
Definition categoryCallback (selectedCategoryId : option string) (place : Place.t)
  : completion jsval :=
  Normal (JBool (strictEquals (JString (Place.categoryId place))
                              (ofNullable selectedCategoryId))).

(** The callback of the active stage: [place.isActive] *)
Definition activeCallback (place : Place.t) : completion jsval :=
  Normal (JBool (Place.isActive place)).

(** [if (searchQuery.trim()) { filtered = filtered.filter(...) }] *)
Definition textStage (searchQuery : string) (filtered : list Place.t)
  : completion (list Place.t) :=
  if toBoolean (JString (trim searchQuery))
  then arrayFilter (textCallback searchQuery) filtered
  else Normal filtered.

(** [if (selectedCategoryId) { filtered = filtered.filter(...) }] *)
Definition categoryStage (selectedCategoryId : option string) (filtered : list Place.t)
  : completion (list Place.t) :=
  if toBoolean (ofNullable selectedCategoryId)
  then arrayFilter (categoryCallback selectedCategoryId) filtered
  else Normal filtered.

(** [filtered = filtered.filter((place) => place.isActive)] *)
Definition activeStage (filtered : list Place.t) : completion (list Place.t) :=
  arrayFilter activeCallback filtered.

(** The value of the local [filtered] at the end of [filterPlaces], as a
    function of the three fields it is computed from. *)
Definition filtered (places : list Place.t) (searchQuery : string)
           (selectedCategoryId : option string) : completion (list Place.t) :=
  cbind (textStage searchQuery places) (fun afterText =>
  cbind (categoryStage selectedCategoryId afterText) (fun afterCategory =>
  activeStage afterCategory)).

(* ------------------------------------------------------------------ *)
(** ** The actions of [usePlaceStore]                                  *)
(* ------------------------------------------------------------------ *)

Local Open Scope store_scope.

Definition filterPlaces : store unit :=
  s <- get ;;
  result <- lift (filtered (places s) (searchQuery s) (selectedCategoryId s)) ;;
  set {| places' := None; categories' := None; selectedPlace' := None;
         filteredPlaces' := Some result;
         searchQuery' := None; selectedCategoryId' := None |}.

Definition setPlaces (newPlaces : list Place.t) : store unit :=
  set {| places' := Some newPlaces; categories' := None; selectedPlace' := None;
         filteredPlaces' := None; searchQuery' := None;
         selectedCategoryId' := None |} ;;
  filterPlaces.

Definition setCategories (newCategories : list Category.t) : store unit :=
  set {| places' := None; categories' := Some newCategories;
         selectedPlace' := None; filteredPlaces' := None; searchQuery' := None;
         selectedCategoryId' := None |}.

Definition setSelectedPlace (place : option Place.t) : store unit :=
  set {| places' := None; categories' := None; selectedPlace' := Some place;
         filteredPlaces' := None; searchQuery' := None;
         selectedCategoryId' := None |}.

Definition setSearchQuery (query : string) : store unit :=
  set {| places' := None; categories' := None; selectedPlace' := None;
         filteredPlaces' := None; searchQuery' := Some query;
         selectedCategoryId' := None |} ;;
  filterPlaces.

Definition setSelectedCategory (categoryId : option string) : store unit :=
  set {| places' := None; categories' := None; selectedPlace' := None;
         filteredPlaces' := None; searchQuery' := None;
         selectedCategoryId' := Some categoryId |} ;;
  filterPlaces.

Definition addPlace (place : Place.t) : store unit :=
  s <- get ;;
  set {| places' := Some (places s ++ [place])%list; categories' := None;
         selectedPlace' := None; filteredPlaces' := None; searchQuery' := None;
         selectedCategoryId' := None |} ;;
  filterPlaces.

Definition updatePlace (id : string) (updates : Place.partial) : store unit :=
  s <- get ;;
  let updatedPlaces :=
    arrayMap (fun place =>
                if strictEquals (JString (Place.id place)) (JString id)
                then Place.spread place updates
                else place)
             (places s) in
  set {| places' := Some updatedPlaces; categories' := None;
         selectedPlace' := None; filteredPlaces' := None; searchQuery' := None;
         selectedCategoryId' := None |} ;;
  filterPlaces.

Definition removePlace (id : string) : store unit :=
  s <- get ;;
  remaining <- lift (arrayFilter
                       (fun place =>
                          Normal (JBool (negb (strictEquals (JString (Place.id place))
                                                            (JString id)))))
                       (places s)) ;;
  set {| places' := Some remaining; categories' := None;
         selectedPlace' := None; filteredPlaces' := None; searchQuery' := None;
         selectedCategoryId' := None |} ;;
  filterPlaces.

(** The initial state of the store. *)
Definition initialState : PlaceState :=
  {| places := []; categories := []; selectedPlace := None;
     filteredPlaces := []; searchQuery := ""; selectedCategoryId := None |}.

Local Close Scope store_scope.

(* ------------------------------------------------------------------ *)
(** ** The filter over arrays held by reference                        *)
(* ------------------------------------------------------------------ *)

(** JavaScript arrays are objects: [places] and [filteredPlaces] hold
    references.  Here the arrays live in a heap, [filter] reads the
    array it is called on and allocates the array it returns, and the
    three stages are those of [filtered], reference for reference. *)
Module ByReference.

Definition ref := nat.
Definition heap := list (list Place.t).

Definition deref (h : heap) (r : ref) : list Place.t := nth r h [].

Definition alloc (arr : list Place.t) (h : heap) : ref * heap :=
  (List.length h, (h ++ [arr])%list).

(** [arr.filter(cb)] for the array at [r]. *)
Definition arrayFilterAt (cb : Place.t -> completion jsval) (r : ref) (h : heap)
  : completion (ref * heap) :=
  cbind (arrayFilter cb (deref h r)) (fun kept => Normal (alloc kept h)).

(** The local [filtered] of [filterPlaces], starting as an alias of
    [places]. *)
Definition filteredAt (places : ref) (searchQuery : string)
           (selectedCategoryId : option string) (h : heap)
  : completion (ref * heap) :=
  let filtered := places in
  cbind (if toBoolean (JString (trim searchQuery))
         then arrayFilterAt (textCallback searchQuery) filtered h
         else Normal (filtered, h)) (fun afterText =>
  cbind (if toBoolean (ofNullable selectedCategoryId)
         then arrayFilterAt (categoryCallback selectedCategoryId)
                            (fst afterText) (snd afterText)
         else Normal afterText) (fun afterCategory =>
  arrayFilterAt activeCallback (fst afterCategory) (snd afterCategory))).

End ByReference.

(* ------------------------------------------------------------------ *)
(** ** Specification vocabulary                                        *)
(* ------------------------------------------------------------------ *)

(** [needle] occurs in [s] as a contiguous block. *)
Definition Substring (needle s : string) : Prop :=
  exists before after, s = before ++ needle ++ after.

(** Every code unit of [s] is white space. *)
Fixpoint allWhiteSpace (s : string) : bool :=
  match s with
  | EmptyString => true
  | String c s' => isWhiteSpace c && allWhiteSpace s'
  end.

(** [kept] is [l] restricted to the elements satisfying [Q]: walking
    down [l], an element is kept iff [Q] holds of it. *)
Inductive Selects {A} (Q : A -> Prop) : list A -> list A -> Prop :=
| Selects_nil : Selects Q [] []
| Selects_keep x l kept :
    Q x -> Selects Q l kept -> Selects Q (x :: l) (x :: kept)
| Selects_drop x l kept :
    ~ Q x -> Selects Q l kept -> Selects Q (x :: l) kept.

(** [sub] is obtained from [l] by deleting elements. *)
Inductive Subsequence {A} : list A -> list A -> Prop :=
| Subsequence_nil : Subsequence [] []
| Subsequence_take x sub l :
    Subsequence sub l -> Subsequence (x :: sub) (x :: l)
| Subsequence_skip x sub l :
    Subsequence sub l -> Subsequence sub (x :: l).

(** Strictly increasing positions. *)
Fixpoint increasingFrom (lo : nat) (positions : list nat) : Prop :=
  match positions with
  | [] => True
  | i :: rest => lo <= i /\ increasingFrom (S i) rest
  end.

(** [sub] sits in [l] at the given positions, one per element. *)
Fixpoint occursAt {A} (sub : list A) (positions : list nat) (l : list A) : Prop :=
  match sub, positions with
  | [], [] => True
  | x :: sub', i :: rest => nth_error l i = Some x /\ occursAt sub' rest l
  | _, _ => False
  end.

(** A place matches the query on one of its text fields, both sides in
    lower case. *)
Definition TextMatch (query : string) (place : Place.t) : Prop :=
  Substring (toLowerCase query) (toLowerCase (Place.name place)) \/
  Substring (toLowerCase query) (toLowerCase (Place.address place)) \/
  (exists d, Place.description place = Some d /\
             Substring (toLowerCase query) (toLowerCase d)) \/
  (exists c, Place.cuisine place = Some c /\
             Substring (toLowerCase query) (toLowerCase c)).

(** The truth value of the text callback, read off its four operands. *)
Definition textMatches (searchQuery : string) (place : Place.t) : bool :=
  includes (toLowerCase (Place.name place)) (toLowerCase searchQuery) ||
  includes (toLowerCase (Place.address place)) (toLowerCase searchQuery) ||
  match Place.description place with
  | Some d => includes (toLowerCase d) (toLowerCase searchQuery)
  | None => false
  end ||
  match Place.cuisine place with
  | Some c => includes (toLowerCase c) (toLowerCase searchQuery)
  | None => false
  end.

(** [place.categoryId === categoryId] as a test on the place. *)
Definition inCategory (categoryId : string) (place : Place.t) : bool :=
  String.eqb (Place.categoryId place) categoryId.

(** The cached view agrees with the three fields it is derived from. *)
Definition consistent (s : PlaceState) : Prop :=
  filtered (places s) (searchQuery s) (selectedCategoryId s)
  = Normal (filteredPlaces s).

(** The actions of the store, with their arguments. *)
Inductive action : Type :=
| SetPlaces (newPlaces : list Place.t)
| SetCategories (newCategories : list Category.t)
| SetSelectedPlace (place : option Place.t)
| SetSearchQuery (query : string)
| SetSelectedCategory (categoryId : option string)
| AddPlace (place : Place.t)
| UpdatePlace (id : string) (updates : Place.partial)
| RemovePlace (id : string)
| FilterPlaces.

Definition perform (a : action) : store unit :=
  match a with
  | SetPlaces newPlaces => setPlaces newPlaces
  | SetCategories newCategories => setCategories newCategories
  | SetSelectedPlace place => setSelectedPlace place
  | SetSearchQuery query => setSearchQuery query
  | SetSelectedCategory categoryId => setSelectedCategory categoryId
  | AddPlace place => addPlace place
  | UpdatePlace id updates => updatePlace id updates
  | RemovePlace id => removePlace id
  | FilterPlaces => filterPlaces
  end.

(* ------------------------------------------------------------------ *)
(** ** Sample data                                                     *)
(* ------------------------------------------------------------------ *)

Definition heritage : Category.t := {| Category.id := "heritage"; Category.name := "Heritage" |}.
Definition food : Category.t := {| Category.id := "food"; Category.name := "Food" |}.

Definition hahoeHouse : Place.t :=
  {| Place.id := "p1"; Place.name := "Hahoe House"; Place.address := "Andong-si";
     Place.description := None; Place.cuisine := None;
     Place.categoryId := "heritage"; Place.isActive := true;
     Place.latitude := 36539000%Z; Place.longitude := 128518000%Z;
     Place.category := heritage; Place.images := None;
     Place.chatHistories := None |}.

Definition jjimdakAlley : Place.t :=
  {| Place.id := "p2"; Place.name := "Jjimdak Alley"; Place.address := "Andong-si";
     Place.description := None; Place.cuisine := Some "korean";
     Place.categoryId := "food"; Place.isActive := true;
     Place.latitude := 36565000%Z; Place.longitude := 128729000%Z;
     Place.category := food; Place.images := Some [mkPlaceImage "img-1"];
     Place.chatHistories := None |}.

Definition closedSpot : Place.t :=
  {| Place.id := "p3"; Place.name := "Closed Spot"; Place.address := "X";
     Place.description := None; Place.cuisine := None;
     Place.categoryId := "food"; Place.isActive := false;
     Place.latitude := 0%Z; Place.longitude := 0%Z;
     Place.category := food; Place.images := None;
     Place.chatHistories := None |}.

Definition samplePlaces : list Place.t := [hahoeHouse; jjimdakAlley; closedSpot].

(** The store after [addPlace(hahoeHouse)] on the initial state. *)
Definition afterFirstAdd : PlaceState :=
  {| places := [hahoeHouse]; categories := []; selectedPlace := None;
     filteredPlaces := [hahoeHouse]; searchQuery := "";
     selectedCategoryId := None |}.

(** [{ name: "Hahoe Folk Village", isActive: false }] *)
Definition renameAndHide : Place.partial :=
  {| Place.id' := None; Place.name' := Some "Hahoe Folk Village";
     Place.address' := None; Place.description' := None; Place.cuisine' := None;
     Place.categoryId' := None; Place.isActive' := Some false;
     Place.latitude' := None; Place.longitude' := None;
     Place.category' := None; Place.images' := None;
     Place.chatHistories' := None |}.

(* ------------------------------------------------------------------ *)
(** ** Specification vocabulary: the filter as one condition           *)
(* ------------------------------------------------------------------ *)

(** What a place must satisfy to survive all three stages: the text
    stage is skipped or matched, the category stage is skipped (null or
    empty selector) or matched, and the place is active. *)
Definition passes (query : string) (selector : option string) (place : Place.t)
  : Prop :=
  (trim query = "" \/ TextMatch query place) /\
  match selector with
  | Some categoryId => categoryId = "" \/ Place.categoryId place = categoryId
  | None => True
  end /\
  Place.isActive place = true.

(** The same condition as a test. *)
Definition passesb (query : string) (selector : option string) (place : Place.t)
  : bool :=
  (if toBoolean (JString (trim query)) then textMatches query place else true) &&
  match selector with
  | Some categoryId =>
      if String.eqb categoryId "" then true else inCategory categoryId place
  | None => true
  end &&
  Place.isActive place.

(** The callback of [updatePlace]'s [map]. *)
Definition updateOne (id : string) (updates : Place.partial) (place : Place.t)
  : Place.t :=
  if String.eqb (Place.id place) id then Place.spread place updates else place.

(** The state with a new [places] array and the cached view derived
    from it under the state's query and selector. *)
Definition withPlaces (newPlaces : list Place.t) (s : PlaceState) : PlaceState :=
  {| places := newPlaces;
     categories := categories s;
     selectedPlace := selectedPlace s;
     filteredPlaces :=
       List.filter (passesb (searchQuery s) (selectedCategoryId s)) newPlaces;
     searchQuery := searchQuery s;
     selectedCategoryId := selectedCategoryId s |}.

(** The state with a new query and selector and the cached view derived
    under them. *)
Definition withCriteria (query : string) (selector : option string)
           (s : PlaceState) : PlaceState :=
  {| places := places s;
     categories := categories s;
     selectedPlace := selectedPlace s;
     filteredPlaces := List.filter (passesb query selector) (places s);
     searchQuery := query;
     selectedCategoryId := selector |}.

(* ------------------------------------------------------------------ *)
(** ** The auth store                                                  *)
(* ------------------------------------------------------------------ *)

(** Modelled from the spec: the Prisma enum [UserRole] is not among the
    sources; a role is carried as the string it is at run time. *)
Definition UserRole := string.

Module AuthUser.
Record t : Type := mk {
  id : string;
  email : string;
  nickname : string;
  role : UserRole
}.
End AuthUser.

Module Auth.
Record state : Type := mk {
  user : option AuthUser.t;
  isAuthenticated : bool;
  isLoading : bool
}.

Definition initial : state :=
  {| user := None; isAuthenticated := false; isLoading := false |}.

(** [!!user] for a user object or null. *)
Definition notNull (u : option AuthUser.t) : bool :=
  match u with
  | Some _ => true
  | None => false
  end.

Definition setUser (newUser : option AuthUser.t) (s : state) : state :=
  {| user := newUser; isAuthenticated := notNull newUser;
     isLoading := isLoading s |}.

Definition setLoading (loading : bool) (s : state) : state :=
  {| user := user s; isAuthenticated := isAuthenticated s;
     isLoading := loading |}.

Definition login (newUser : AuthUser.t) (s : state) : state :=
  {| user := Some newUser; isAuthenticated := true; isLoading := false |}.

Definition logout (s : state) : state :=
  {| user := None; isAuthenticated := false; isLoading := false |}.

Inductive action : Type :=
| SetUser (newUser : option AuthUser.t)
| SetLoading (loading : bool)
| Login (newUser : AuthUser.t)
| Logout.

Definition perform (a : action) : state -> state :=
  match a with
  | SetUser newUser => setUser newUser
  | SetLoading loading => setLoading loading
  | Login newUser => login newUser
  | Logout => logout
  end.

Inductive reachable : state -> Prop :=
| reachable_initial : reachable initial
| reachable_step a s : reachable s -> reachable (perform a s).
End Auth.

(* ------------------------------------------------------------------ *)
(** ** The UI store                                                    *)
(* ------------------------------------------------------------------ *)

(** [n.toString()] for a non-negative integer below 10^21, as every
    reading of [Date.now()] is: its decimal digits. *)
Definition numberToString (n : N) : string :=
  NilEmpty.string_of_uint (N.to_uint n).

(** ToBoolean on a number that is an integer: zero is falsy. *)
Definition numberTruthy (n : number) : bool := negb (Z.eqb n 0).

Module ToastType.
Inductive t : Type := success | error | warning | info.
End ToastType.

Module ModalType.
Inductive t : Type := placeDetail | chat | userProfile | auth.
End ModalType.

Module ToastMessage.
(** [duration] is in whole milliseconds. *)
Record t : Type := mk {
  id : string;
  type : ToastType.t;
  title : string;
  description : option string;
  duration : option number
}.
End ToastMessage.

(** [Omit<ToastMessage, "id">] *)
Module ToastInput.
Record t : Type := mk {
  type : ToastType.t;
  title : string;
  description : option string;
  duration : option number
}.
End ToastInput.

Module ModalState.
(** [data] is of type [any]; the values carried here are the
    primitive ones, [undefined] standing for an absent key. *)
Record t : Type := mk {
  isOpen : bool;
  type : option ModalType.t;
  data : jsval
}.
End ModalState.

Module LoadingState.
Record t : Type := mk {
  isLoading : bool;
  message : option string
}.
End LoadingState.

(** What [setTimeout(() => get().removeToast(id), delay)] registers:
    the captured id and the delay in milliseconds. *)
Module Timer.
Record t : Type := mk {
  removes : string;
  delay : number
}.
End Timer.

Module UI.
Record state : Type := mk {
  modal : ModalState.t;
  loading : LoadingState.t;
  toasts : list ToastMessage.t;
  sidebarCollapsed : bool
}.

Definition initial : state :=
  {| modal := {| ModalState.isOpen := false; ModalState.type := None;
                 ModalState.data := JUndefined |};
     loading := {| LoadingState.isLoading := false;
                   LoadingState.message := None |};
     toasts := [];
     sidebarCollapsed := false |}.

Definition openModal (type : option ModalType.t) (data : jsval) (s : state)
  : state :=
  {| modal := {| ModalState.isOpen := true; ModalState.type := type;
                 ModalState.data := data |};
     loading := loading s; toasts := toasts s;
     sidebarCollapsed := sidebarCollapsed s |}.

Definition closeModal (s : state) : state :=
  {| modal := {| ModalState.isOpen := false; ModalState.type := None;
                 ModalState.data := JUndefined |};
     loading := loading s; toasts := toasts s;
     sidebarCollapsed := sidebarCollapsed s |}.

Definition setLoading (isLoading : bool) (message : option string) (s : state)
  : state :=
  {| modal := modal s;
     loading := {| LoadingState.isLoading := isLoading;
                   LoadingState.message := message |};
     toasts := toasts s;
     sidebarCollapsed := sidebarCollapsed s |}.

(** [state.toasts.filter((toast) => toast.id !== id)] *)
Definition removeToast (id : string) (s : state) : state :=
  {| modal := modal s; loading := loading s;
     toasts := List.filter
                 (fun toast => negb (String.eqb (ToastMessage.id toast) id))
                 (toasts s);
     sidebarCollapsed := sidebarCollapsed s |}.

(** [{ ...toast, id }] *)
Definition newToast (toast : ToastInput.t) (id : string) : ToastMessage.t :=
  {| ToastMessage.id := id;
     ToastMessage.type := ToastInput.type toast;
     ToastMessage.title := ToastInput.title toast;
     ToastMessage.description := ToastInput.description toast;
     ToastMessage.duration := ToastInput.duration toast |}.

(** [toast.duration && toast.duration > 0] as a condition. *)
Definition autoDismiss (toast : ToastInput.t) : bool :=
  match ToastInput.duration toast with
  | Some d => numberTruthy d && (0 <? d)%Z
  | None => false
  end.

(** [addToast(toast)] when [Date.now()] reads [now]: the new state and
    the timer it registers, if any. *)
Definition addToast (now : N) (toast : ToastInput.t) (s : state)
  : state * option Timer.t :=
  let id := numberToString now in
  let s' := {| modal := modal s; loading := loading s;
               toasts := (toasts s ++ [newToast toast id])%list;
               sidebarCollapsed := sidebarCollapsed s |} in
  (s',
   if autoDismiss toast
   then match ToastInput.duration toast with
        | Some d => Some {| Timer.removes := id; Timer.delay := d |}
        | None => None
        end
   else None).

(** The callback of a registered timer, run on the state of the store
    at the time it fires: [get().removeToast(id)]. *)
Definition fire (timer : Timer.t) (s : state) : state :=
  removeToast (Timer.removes timer) s.

Definition toggleSidebar (s : state) : state :=
  {| modal := modal s; loading := loading s; toasts := toasts s;
     sidebarCollapsed := negb (sidebarCollapsed s) |}.

Definition setSidebarCollapsed (collapsed : bool) (s : state) : state :=
  {| modal := modal s; loading := loading s; toasts := toasts s;
     sidebarCollapsed := collapsed |}.
End UI.

(* ------------------------------------------------------------------ *)
(** ** The chat store                                                  *)
(* ------------------------------------------------------------------ *)

(** ["user" | "bot"] *)
Module Sender.
Inductive t : Type := user | bot.
End Sender.

Module ChatEntry.
(** An element of [messages]; [timestamp] is the [Date] as
    milliseconds since the epoch. *)
Record t : Type := mk {
  id : slot string;
  type : Sender.t;
  content : string;
  timestamp : N;
  placeId : option string
}.
End ChatEntry.

(** The argument of [addMessage]: the keys of its declared type and,
    since an object with further keys has that type too (a
    [ChatMessage], say), the [id] key it may carry, holding a string
    or [undefined]. *)
Module ChatInput.
Record t : Type := mk {
  id : option (slot string);
  type : Sender.t;
  content : string;
  placeId : option string
}.
End ChatInput.

Module Chat.
Record state : Type := mk {
  messages : list ChatEntry.t;
  isTyping : bool;
  currentPlaceId : option string
}.

Definition initial : state :=
  {| messages := []; isTyping := false; currentPlaceId := None |}.

(** [{ id: Date.now().toString(), ...message, timestamp: new Date() }],
    the two clock readings being [idClock] and [stampClock]: the spread
    comes after the [id] key and before the [timestamp] key. *)
Definition newMessage (idClock stampClock : N) (message : ChatInput.t)
  : ChatEntry.t :=
  {| ChatEntry.id :=
       override (Defined (numberToString idClock)) (ChatInput.id message);
     ChatEntry.type := ChatInput.type message;
     ChatEntry.content := ChatInput.content message;
     ChatEntry.timestamp := stampClock;
     ChatEntry.placeId := ChatInput.placeId message |}.

Definition addMessage (idClock stampClock : N) (message : ChatInput.t)
           (s : state) : state :=
  {| messages := (messages s ++ [newMessage idClock stampClock message])%list;
     isTyping := isTyping s;
     currentPlaceId := currentPlaceId s |}.

Definition clearMessages (s : state) : state :=
  {| messages := []; isTyping := isTyping s;
     currentPlaceId := currentPlaceId s |}.

Definition setTyping (typing : bool) (s : state) : state :=
  {| messages := messages s; isTyping := typing;
     currentPlaceId := currentPlaceId s |}.

Definition setCurrentPlace (placeId : option string) (s : state) : state :=
  {| messages := messages s; isTyping := isTyping s;
     currentPlaceId := placeId |}.

(** One call of [addMessage] with its clock readings. *)
Definition call : Type := (N * N * ChatInput.t)%type.

Definition runCall (s : state) (c : call) : state :=
  addMessage (fst (fst c)) (snd (fst c)) (snd c) s.

Definition entryOf (c : call) : ChatEntry.t :=
  newMessage (fst (fst c)) (snd (fst c)) (snd c).
End Chat.

(* ------------------------------------------------------------------ *)
(** ** The settings store                                              *)
(* ------------------------------------------------------------------ *)

Module MapCenter.
Record t : Type := mk {
  lat : number;
  lng : number
}.
End MapCenter.

(** [{ lat: 36.5684, lng: 128.7294 }], in micro-degrees. *)
Definition ANDONG_CENTER : MapCenter.t :=
  {| MapCenter.lat := 36568400%Z; MapCenter.lng := 128729400%Z |}.

Module Theme.
Inductive t : Type := light | dark | system.
End Theme.

Module Language.
Inductive t : Type := ko | en.
End Language.

Module MapProvider.
Inductive t : Type := kakao.
End MapProvider.

Module AppSettings.
Record t : Type := mk {
  theme : Theme.t;
  language : Language.t;
  mapProvider : MapProvider.t;
  defaultMapCenter : MapCenter.t;
  defaultMapZoom : number
}.

(** [Partial<AppSettings>] *)
Record partial : Type := mkPartial {
  theme' : option Theme.t;
  language' : option Language.t;
  mapProvider' : option MapProvider.t;
  defaultMapCenter' : option MapCenter.t;
  defaultMapZoom' : option number
}.

(** [{ ...settings, ...updates }] *)
Definition spread (settings : t) (updates : partial) : t :=
  {| theme := override (theme settings) (theme' updates);
     language := override (language settings) (language' updates);
     mapProvider := override (mapProvider settings) (mapProvider' updates);
     defaultMapCenter :=
       override (defaultMapCenter settings) (defaultMapCenter' updates);
     defaultMapZoom :=
       override (defaultMapZoom settings) (defaultMapZoom' updates) |}.

(** The keys of two partial objects, the later one winning. *)
Definition later {A} (first second : option A) : option A :=
  match second with
  | Some v => Some v
  | None => first
  end.

Definition combine (first second : partial) : partial :=
  {| theme' := later (theme' first) (theme' second);
     language' := later (language' first) (language' second);
     mapProvider' := later (mapProvider' first) (mapProvider' second);
     defaultMapCenter' :=
       later (defaultMapCenter' first) (defaultMapCenter' second);
     defaultMapZoom' := later (defaultMapZoom' first) (defaultMapZoom' second) |}.
End AppSettings.

Definition defaultSettings : AppSettings.t :=
  {| AppSettings.theme := Theme.light;
     AppSettings.language := Language.ko;
     AppSettings.mapProvider := MapProvider.kakao;
     AppSettings.defaultMapCenter := ANDONG_CENTER;
     AppSettings.defaultMapZoom := 12%Z |}.

Module Settings.
Record state : Type := mk { settings : AppSettings.t }.

Definition initial : state := {| settings := defaultSettings |}.

Definition updateSettings (updates : AppSettings.partial) (s : state) : state :=
  {| settings := AppSettings.spread (settings s) updates |}.

Definition resetSettings (s : state) : state :=
  {| settings := defaultSettings |}.
End Settings.

(** A toast that dismisses itself after three seconds, and one that
    stays until it is removed. *)
Definition timedToast : ToastInput.t :=
  {| ToastInput.type := ToastType.success; ToastInput.title := "Saved";
     ToastInput.description := None; ToastInput.duration := Some 3000%Z |}.

Definition stickyToast : ToastInput.t :=
  {| ToastInput.type := ToastType.error; ToastInput.title := "Offline";
     ToastInput.description := Some "No connection"; ToastInput.duration := None |}.

Definition darkEnglish : AppSettings.partial :=
  {| AppSettings.theme' := Some Theme.dark;
     AppSettings.language' := Some Language.en;
     AppSettings.mapProvider' := None;
     AppSettings.defaultMapCenter' := None;
     AppSettings.defaultMapZoom' := None |}.

(* ------------------------------------------------------------------ *)
(** ** Upper case                                                      *)
(* ------------------------------------------------------------------ *)

(** The upper-case form of one code unit below 256, when that form
    stays below 256: U+00DF becomes the two units [SS]; the forms of
    U+00B5 and U+00FF (U+039C and U+0178) leave the range. *)
Definition toUpperCaseUnit (c : ascii) : option string :=
  let n := nat_of_ascii c in
  if (n =? 223)%nat then Some "SS"
  else if ((n =? 181) || (n =? 255))%nat then None
  else if (((97 <=? n) && (n <=? 122)) ||
           ((224 <=? n) && (n <=? 254) && negb (n =? 247)))%nat
       then Some (String (ascii_of_nat (n - 32)) EmptyString)
       else Some (String c EmptyString).

(** [s.toUpperCase()], when the result stays in the range. *)
Fixpoint toUpperCase (s : string) : option string :=
  match s with
  | EmptyString => Some EmptyString
  | String c s' =>
      match toUpperCaseUnit c, toUpperCase s' with
      | Some upper, Some rest => Some (upper ++ rest)
      | _, _ => None
      end
  end.

(** U+00DF, the German sharp s. *)
Definition sharpS : ascii := ascii_of_nat 223.

(** The query [stra<sharp s>e] and a place on a street of that name. *)
Definition strasse : string := "stra" ++ String sharpS "e".

Definition hauptstrasse : Place.t :=
  {| Place.id := "p4"; Place.name := "Hauptstra" ++ String sharpS "e 5";
     Place.address := "Andong-si";
     Place.description := None; Place.cuisine := None;
     Place.categoryId := "food"; Place.isActive := true;
     Place.latitude := 0%Z; Place.longitude := 0%Z;
     Place.category := food; Place.images := None;
     Place.chatHistories := None |}.

(* ------------------------------------------------------------------ *)
(** ** Places at run time: keys that hold [undefined]                  *)
(* ------------------------------------------------------------------ *)

(** [Partial<PlaceWithRelations>] admits a key that is present and
    holds [undefined], and a spread copies such a key.  A place of the
    store can therefore hold [undefined] where [PlaceWithRelations]
    promises a value.  This part models the place store over such
    objects; an exception leaves the store in the state the last [set]
    gave it. *)

Module PlaceObject.
Record t : Type := mk {
  id : slot string;
  name : slot string;
  address : slot string;
  description : slot (option string);
  cuisine : slot (option string);
  categoryId : slot string;
  isActive : slot bool;
  latitude : slot number;
  longitude : slot number;
  category : slot Category.t;
  images : slot (list PlaceImage);
  chatHistories : slot (list ChatHistory)
}.

(** [Partial<PlaceWithRelations>] at run time: a key is absent
    ([None]), or present with a value or with [undefined]. *)
Record partial : Type := mkPartial {
  id' : option (slot string);
  name' : option (slot string);
  address' : option (slot string);
  description' : option (slot (option string));
  cuisine' : option (slot (option string));
  categoryId' : option (slot string);
  isActive' : option (slot bool);
  latitude' : option (slot number);
  longitude' : option (slot number);
  category' : option (slot Category.t);
  images' : option (slot (list PlaceImage));
  chatHistories' : option (slot (list ChatHistory))
}.

(** [{ ...place, ...updates }] *)
Definition spread (place : t) (updates : partial) : t :=
  {| id := override (id place) (id' updates);
     name := override (name place) (name' updates);
     address := override (address place) (address' updates);
     description := override (description place) (description' updates);
     cuisine := override (cuisine place) (cuisine' updates);
     categoryId := override (categoryId place) (categoryId' updates);
     isActive := override (isActive place) (isActive' updates);
     latitude := override (latitude place) (latitude' updates);
     longitude := override (longitude place) (longitude' updates);
     category := override (category place) (category' updates);
     images := override (images place) (images' updates);
     chatHistories := override (chatHistories place) (chatHistories' updates) |}.

(** A place that has the type [PlaceWithRelations], as an object. *)
Definition ofTyped (place : Place.t) : t :=
  {| id := Defined (Place.id place);
     name := Defined (Place.name place);
     address := Defined (Place.address place);
     description := Defined (Place.description place);
     cuisine := Defined (Place.cuisine place);
     categoryId := Defined (Place.categoryId place);
     isActive := Defined (Place.isActive place);
     latitude := Defined (Place.latitude place);
     longitude := Defined (Place.longitude place);
     category := Defined (Place.category place);
     images := slotOfOptional (Place.images place);
     chatHistories := slotOfOptional (Place.chatHistories place) |}.

(** An update whose present keys all hold values, as an object. *)
Definition ofPartial (updates : Place.partial) : partial :=
  {| id' := option_map Defined (Place.id' updates);
     name' := option_map Defined (Place.name' updates);
     address' := option_map Defined (Place.address' updates);
     description' := option_map Defined (Place.description' updates);
     cuisine' := option_map Defined (Place.cuisine' updates);
     categoryId' := option_map Defined (Place.categoryId' updates);
     isActive' := option_map Defined (Place.isActive' updates);
     latitude' := option_map Defined (Place.latitude' updates);
     longitude' := option_map Defined (Place.longitude' updates);
     category' := option_map Defined (Place.category' updates);
     images' := option_map slotOfOptional (Place.images' updates);
     chatHistories' := option_map slotOfOptional (Place.chatHistories' updates) |}.

(** The text stage can read the place: name and address are strings. *)
Definition textSafe (place : t) : Prop :=
  (exists n, name place = Defined n) /\ (exists a, address place = Defined a).
End PlaceObject.

Module Runtime.
Record state : Type := mk {
  places : list PlaceObject.t;
  categories : list Category.t;
  selectedPlace : option PlaceObject.t;
  filteredPlaces : list PlaceObject.t;
  searchQuery : string;
  selectedCategoryId : option string
}.

Record patch : Type := mkPatch {
  places' : option (list PlaceObject.t);
  categories' : option (list Category.t);
  selectedPlace' : option (option PlaceObject.t);
  filteredPlaces' : option (list PlaceObject.t);
  searchQuery' : option string;
  selectedCategoryId' : option (option string)
}.

(** [set(patch)] merges the patch into the state, key by key. *)
Definition merge (s : state) (p : patch) : state :=
  {| places := override (places s) (places' p);
     categories := override (categories s) (categories' p);
     selectedPlace := override (selectedPlace s) (selectedPlace' p);
     filteredPlaces := override (filteredPlaces s) (filteredPlaces' p);
     searchQuery := override (searchQuery s) (searchQuery' p);
     selectedCategoryId :=
       override (selectedCategoryId s) (selectedCategoryId' p) |}.

(** How a run of store code ends: normally, with a value, or by an
    exception; either way the store is left in some state. *)
Inductive result (A : Type) : Type :=
| Done (a : A) (s : state)
| Thrown (s : state).
Arguments Done {A} a s.
Arguments Thrown {A} s.

Definition store (A : Type) : Type := state -> result A.

Definition ret {A} (a : A) : store A := fun s => Done a s.

Definition bind {A B} (m : store A) (k : A -> store B) : store B :=
  fun s =>
    match m s with
    | Done a s' => k a s'
    | Thrown s' => Thrown s'
    end.

Definition get : store state := fun s => Done s s.

Definition set (p : patch) : store unit := fun s => Done tt (merge s p).

(** An expression evaluated inside an action: its exception leaves the
    action at the current state. *)
Definition lift {A} (c : completion A) : store A :=
  fun s =>
    match c with
    | Normal a => Done a s
    | Throw => Thrown s
    end.

(** The state the store is in after the run, however it ended. *)
Definition after {A} (m : store A) (s : state) : state :=
  match m s with
  | Done _ s' => s'
  | Thrown s' => s'
  end.

Declare Scope runtime_scope.
Delimit Scope runtime_scope with runtime.
Notation "x <- m ;; k" := (bind m (fun x => k))
  (at level 61, m at next level, right associativity) : runtime_scope.
Notation "m ;; k" := (bind m (fun _ => k))
  (at level 61, right associativity) : runtime_scope.

(** The callback of the text stage:
    [name... || address... || description?.... || cuisine?....] *)
Definition textCallback (searchQuery : string) (place : PlaceObject.t)
  : completion jsval :=
  logicalOr
    (logicalOr
       (logicalOr
          (lowerIncludes searchQuery (slotString (PlaceObject.name place)))
          (lowerIncludes searchQuery (slotString (PlaceObject.address place))))
       (optionalChain (slotNullable (PlaceObject.description place))
                      (lowerIncludes searchQuery)))
    (optionalChain (slotNullable (PlaceObject.cuisine place))
                   (lowerIncludes searchQuery)).

(** [place.categoryId === selectedCategoryId] *)
Definition categoryCallback (selectedCategoryId : option string)
           (place : PlaceObject.t) : completion jsval :=
  Normal (JBool (strictEquals (slotString (PlaceObject.categoryId place))
                              (ofNullable selectedCategoryId))).

(** [place.isActive] *)
Definition activeCallback (place : PlaceObject.t) : completion jsval :=
  Normal (slotBool (PlaceObject.isActive place)).

Definition textStage (searchQuery : string) (filtered : list PlaceObject.t)
  : completion (list PlaceObject.t) :=
  if toBoolean (JString (trim searchQuery))
  then arrayFilter (textCallback searchQuery) filtered
  else Normal filtered.

Definition categoryStage (selectedCategoryId : option string)
           (filtered : list PlaceObject.t) : completion (list PlaceObject.t) :=
  if toBoolean (ofNullable selectedCategoryId)
  then arrayFilter (categoryCallback selectedCategoryId) filtered
  else Normal filtered.

Definition activeStage (filtered : list PlaceObject.t)
  : completion (list PlaceObject.t) :=
  arrayFilter activeCallback filtered.

(** The value of the local [filtered] at the end of [filterPlaces]. *)
Definition filtered (places : list PlaceObject.t) (searchQuery : string)
           (selectedCategoryId : option string) : completion (list PlaceObject.t) :=
  cbind (textStage searchQuery places) (fun afterText =>
  cbind (categoryStage selectedCategoryId afterText) (fun afterCategory =>
  activeStage afterCategory)).

Local Open Scope runtime_scope.

Definition filterPlaces : store unit :=
  s <- get ;;
  result <- lift (filtered (places s) (searchQuery s) (selectedCategoryId s)) ;;
  set {| places' := None; categories' := None; selectedPlace' := None;
         filteredPlaces' := Some result;
         searchQuery' := None; selectedCategoryId' := None |}.

Definition setPlaces (newPlaces : list PlaceObject.t) : store unit :=
  set {| places' := Some newPlaces; categories' := None; selectedPlace' := None;
         filteredPlaces' := None; searchQuery' := None;
         selectedCategoryId' := None |} ;;
  filterPlaces.

Definition setCategories (newCategories : list Category.t) : store unit :=
  set {| places' := None; categories' := Some newCategories;
         selectedPlace' := None; filteredPlaces' := None; searchQuery' := None;
         selectedCategoryId' := None |}.

Definition setSelectedPlace (place : option PlaceObject.t) : store unit :=
  set {| places' := None; categories' := None; selectedPlace' := Some place;
         filteredPlaces' := None; searchQuery' := None;
         selectedCategoryId' := None |}.

Definition setSearchQuery (query : string) : store unit :=
  set {| places' := None; categories' := None; selectedPlace' := None;
         filteredPlaces' := None; searchQuery' := Some query;
         selectedCategoryId' := None |} ;;
  filterPlaces.

Definition setSelectedCategory (categoryId : option string) : store unit :=
  set {| places' := None; categories' := None; selectedPlace' := None;
         filteredPlaces' := None; searchQuery' := None;
         selectedCategoryId' := Some categoryId |} ;;
  filterPlaces.

Definition addPlace (place : PlaceObject.t) : store unit :=
  s <- get ;;
  set {| places' := Some (places s ++ [place])%list; categories' := None;
         selectedPlace' := None; filteredPlaces' := None; searchQuery' := None;
         selectedCategoryId' := None |} ;;
  filterPlaces.

(** The callback of [updatePlace]'s [map]:
    [place.id === id ? { ...place, ...updates } : place] *)
Definition updateOne (id : string) (updates : PlaceObject.partial)
           (place : PlaceObject.t) : PlaceObject.t :=
  if strictEquals (slotString (PlaceObject.id place)) (JString id)
  then PlaceObject.spread place updates
  else place.

Definition updatePlace (id : string) (updates : PlaceObject.partial) : store unit :=
  s <- get ;;
  let updatedPlaces := arrayMap (updateOne id updates) (places s) in
  set {| places' := Some updatedPlaces; categories' := None;
         selectedPlace' := None; filteredPlaces' := None; searchQuery' := None;
         selectedCategoryId' := None |} ;;
  filterPlaces.

Definition removePlace (id : string) : store unit :=
  s <- get ;;
  remaining <- lift (arrayFilter
                       (fun place =>
                          Normal (JBool (negb (strictEquals
                                                 (slotString (PlaceObject.id place))
                                                 (JString id)))))
                       (places s)) ;;
  set {| places' := Some remaining; categories' := None;
         selectedPlace' := None; filteredPlaces' := None; searchQuery' := None;
         selectedCategoryId' := None |} ;;
  filterPlaces.

Local Close Scope runtime_scope.

Definition initialState : state :=
  {| places := []; categories := []; selectedPlace := None;
     filteredPlaces := []; searchQuery := ""; selectedCategoryId := None |}.

Inductive action : Type :=
| SetPlaces (newPlaces : list PlaceObject.t)
| SetCategories (newCategories : list Category.t)
| SetSelectedPlace (place : option PlaceObject.t)
| SetSearchQuery (query : string)
| SetSelectedCategory (categoryId : option string)
| AddPlace (place : PlaceObject.t)
| UpdatePlace (id : string) (updates : PlaceObject.partial)
| RemovePlace (id : string)
| FilterPlaces.

Definition perform (a : action) : store unit :=
  match a with
  | SetPlaces newPlaces => setPlaces newPlaces
  | SetCategories newCategories => setCategories newCategories
  | SetSelectedPlace place => setSelectedPlace place
  | SetSearchQuery query => setSearchQuery query
  | SetSelectedCategory categoryId => setSelectedCategory categoryId
  | AddPlace place => addPlace place
  | UpdatePlace id updates => updatePlace id updates
  | RemovePlace id => removePlace id
  | FilterPlaces => filterPlaces
  end.

(** The actions that write one of the filter's inputs. *)
Definition changesFilterInput (a : action) : bool :=
  match a with
  | SetPlaces _ | SetSearchQuery _ | SetSelectedCategory _
  | AddPlace _ | UpdatePlace _ _ | RemovePlace _ => true
  | SetCategories _ | SetSelectedPlace _ | FilterPlaces => false
  end.

(** The states the store can be in: the initial one and those an action
    leaves it in, whether the action completed or threw. *)
Inductive reachable : state -> Prop :=
| reachable_initial : reachable initialState
| reachable_step a s : reachable s -> reachable (after (perform a) s).

(** The cached view is the filter's result on the three fields it is
    derived from. *)
Definition consistent (s : state) : Prop :=
  filtered (places s) (searchQuery s) (selectedCategoryId s)
  = Normal (filteredPlaces s).

(** The filter throws on the three fields. *)
Definition filterThrows (s : state) : Prop :=
  filtered (places s) (searchQuery s) (selectedCategoryId s) = Throw.

(** The blank query, or places the text stage can read. *)
Definition safe (s : state) : Prop :=
  trim (searchQuery s) = "" \/ Forall PlaceObject.textSafe (places s).

(** The state with [places] replaced. *)
Definition withPlaces (newPlaces : list PlaceObject.t) (s : state) : state :=
  {| places := newPlaces; categories := categories s;
     selectedPlace := selectedPlace s; filteredPlaces := filteredPlaces s;
     searchQuery := searchQuery s;
     selectedCategoryId := selectedCategoryId s |}.

(** The state an action has written when it comes to its call of
    [filterPlaces], or to its end if it makes none. *)
Definition written (a : action) (s : state) : state :=
  match a with
  | SetPlaces newPlaces => withPlaces newPlaces s
  | SetCategories newCategories =>
      {| places := places s; categories := newCategories;
         selectedPlace := selectedPlace s; filteredPlaces := filteredPlaces s;
         searchQuery := searchQuery s;
         selectedCategoryId := selectedCategoryId s |}
  | SetSelectedPlace place =>
      {| places := places s; categories := categories s;
         selectedPlace := place; filteredPlaces := filteredPlaces s;
         searchQuery := searchQuery s;
         selectedCategoryId := selectedCategoryId s |}
  | SetSearchQuery query =>
      {| places := places s; categories := categories s;
         selectedPlace := selectedPlace s; filteredPlaces := filteredPlaces s;
         searchQuery := query;
         selectedCategoryId := selectedCategoryId s |}
  | SetSelectedCategory categoryId =>
      {| places := places s; categories := categories s;
         selectedPlace := selectedPlace s; filteredPlaces := filteredPlaces s;
         searchQuery := searchQuery s;
         selectedCategoryId := categoryId |}
  | AddPlace place => withPlaces (places s ++ [place])%list s
  | UpdatePlace id updates => withPlaces (map (updateOne id updates) (places s)) s
  | RemovePlace id =>
      withPlaces
        (List.filter
           (fun place =>
              negb (strictEquals (slotString (PlaceObject.id place)) (JString id)))
           (places s)) s
  | FilterPlaces => s
  end.

(** The actions that call [filterPlaces]. *)
Definition refilters (a : action) : bool :=
  match a with
  | SetCategories _ | SetSelectedPlace _ => false
  | _ => true
  end.

(** The state with the cached view replaced. *)
Definition withView (view : list PlaceObject.t) (s : state) : state :=
  {| places := places s; categories := categories s;
     selectedPlace := selectedPlace s; filteredPlaces := view;
     searchQuery := searchQuery s;
     selectedCategoryId := selectedCategoryId s |}.

End Runtime.

(** A state of the typed store, as a state of the store at run time. *)
Definition runtimeOfTyped (s : PlaceState) : Runtime.state :=
  {| Runtime.places := map PlaceObject.ofTyped (places s);
     Runtime.categories := categories s;
     Runtime.selectedPlace := option_map PlaceObject.ofTyped (selectedPlace s);
     Runtime.filteredPlaces := map PlaceObject.ofTyped (filteredPlaces s);
     Runtime.searchQuery := searchQuery s;
     Runtime.selectedCategoryId := selectedCategoryId s |}.

(** An action on values of the declared types, as an action of the
    store at run time. *)
Definition runtimeAction (a : action) : Runtime.action :=
  match a with
  | SetPlaces newPlaces => Runtime.SetPlaces (map PlaceObject.ofTyped newPlaces)
  | SetCategories newCategories => Runtime.SetCategories newCategories
  | SetSelectedPlace place =>
      Runtime.SetSelectedPlace (option_map PlaceObject.ofTyped place)
  | SetSearchQuery query => Runtime.SetSearchQuery query
  | SetSelectedCategory categoryId => Runtime.SetSelectedCategory categoryId
  | AddPlace place => Runtime.AddPlace (PlaceObject.ofTyped place)
  | UpdatePlace id updates =>
      Runtime.UpdatePlace id (PlaceObject.ofPartial updates)
  | RemovePlace id => Runtime.RemovePlace id
  | FilterPlaces => Runtime.FilterPlaces
  end.

(** [{ name: "Hahoe Folk Village" }] *)
Definition renamed : PlaceObject.partial :=
  {| PlaceObject.id' := None;
     PlaceObject.name' := Some (Defined "Hahoe Folk Village");
     PlaceObject.address' := None; PlaceObject.description' := None;
     PlaceObject.cuisine' := None; PlaceObject.categoryId' := None;
     PlaceObject.isActive' := None; PlaceObject.latitude' := None;
     PlaceObject.longitude' := None; PlaceObject.category' := None;
     PlaceObject.images' := None; PlaceObject.chatHistories' := None |}.

(** [{ name: undefined }] *)
Definition nameUndefined : PlaceObject.partial :=
  {| PlaceObject.id' := None; PlaceObject.name' := Some Undefined;
     PlaceObject.address' := None; PlaceObject.description' := None;
     PlaceObject.cuisine' := None; PlaceObject.categoryId' := None;
     PlaceObject.isActive' := None; PlaceObject.latitude' := None;
     PlaceObject.longitude' := None; PlaceObject.category' := None;
     PlaceObject.images' := None; PlaceObject.chatHistories' := None |}.

(** The store after [setPlaces([hahoeHouse])] and
    [setSearchQuery("andong")]. *)
Definition searchingAndong : Runtime.state :=
  {| Runtime.places := [PlaceObject.ofTyped hahoeHouse];
     Runtime.categories := [];
     Runtime.selectedPlace := None;
     Runtime.filteredPlaces := [PlaceObject.ofTyped hahoeHouse];
     Runtime.searchQuery := "andong";
     Runtime.selectedCategoryId := None |}.

(* ------------------------------------------------------------------ *)
(** ** Strings: [includes] decides [Substring]                         *)
(* ------------------------------------------------------------------ *)

Lemma startsWith_prefix (needle s : string) :
  startsWith needle s = true <-> exists after, s = needle ++ after.
Proof.
  revert s; induction needle as [|a needle IH]; intros s; simpl.
  - split; [intros _; now exists s | reflexivity].
  - destruct s as [|b s].
    + split; [discriminate | intros [after H]; discriminate].
    + rewrite andb_true_iff, Ascii.eqb_eq, IH. split.
      * intros [-> [after ->]]. now exists after.
      * intros [after H]. injection H as -> ->. split; eauto.
Qed.

Lemma includes_Substring (s needle : string) :
  includes s needle = true <-> Substring needle s.
Proof.
  unfold Substring. induction s as [|c s IH].
  - cbn [includes]. rewrite orb_false_r, startsWith_prefix. split.
    + intros [after H]. now exists "", after.
    + intros [[|b before] [after H]]; [now exists after | discriminate].
  - cbn [includes]. rewrite orb_true_iff, startsWith_prefix, IH. split.
    + intros [[after H] | [before [after H]]].
      * now exists "", after.
      * exists (String c before), after. simpl. now rewrite H.
    + intros [[|b before] [after H]].
      * left. now exists after.
      * right. simpl in H. injection H as _ H. now exists before, after.
Qed.

Lemma includes_false_not_Substring (s needle : string) :
  includes s needle = false <-> ~ Substring needle s.
Proof.
  rewrite <- includes_Substring. destruct (includes s needle); split;
    congruence.
Qed.

(* ------------------------------------------------------------------ *)
(** ** Strings: [trim] and letter case                                 *)
(* ------------------------------------------------------------------ *)

Lemma trimEnd_empty (s : string) :
  trimEnd s = "" <-> allWhiteSpace s = true.
Proof.
  induction s as [|c s IH]; simpl; [tauto|].
  destruct (trimEnd s) eqn:E.
  - destruct (isWhiteSpace c); simpl.
    + tauto.
    + split; discriminate.
  - split; [discriminate|]. rewrite andb_true_iff. intros [_ H].
    apply IH in H. discriminate.
Qed.

Lemma allWhiteSpace_trimStart (s : string) :
  allWhiteSpace (trimStart s) = allWhiteSpace s.
Proof.
  induction s as [|c s IH]; simpl; [reflexivity|].
  destruct (isWhiteSpace c) eqn:E; simpl; [exact IH | now rewrite E].
Qed.

Lemma trim_empty (s : string) : trim s = "" <-> allWhiteSpace s = true.
Proof.
  unfold trim. now rewrite trimEnd_empty, allWhiteSpace_trimStart.
Qed.

Lemma toLowerCaseUnit_idempotent (c : ascii) :
  toLowerCaseUnit (toLowerCaseUnit c) = toLowerCaseUnit c.
Proof.
  destruct c as [[] [] [] [] [] [] [] []]; vm_compute; reflexivity.
Qed.

Lemma isWhiteSpace_toLowerCaseUnit (c : ascii) :
  isWhiteSpace (toLowerCaseUnit c) = isWhiteSpace c.
Proof.
  destruct c as [[] [] [] [] [] [] [] []]; vm_compute; reflexivity.
Qed.

Lemma allWhiteSpace_toLowerCase (s : string) :
  allWhiteSpace (toLowerCase s) = allWhiteSpace s.
Proof.
  induction s as [|c s IH]; simpl; [reflexivity|].
  now rewrite isWhiteSpace_toLowerCaseUnit, IH.
Qed.

(** Whether the text stage runs depends on the query only through its
    lower-case form. *)
Lemma trim_truthy_lower (q : string) :
  toBoolean (JString (trim q)) = negb (allWhiteSpace (toLowerCase q)).
Proof.
  rewrite allWhiteSpace_toLowerCase. simpl.
  destruct (allWhiteSpace q) eqn:E.
  - apply trim_empty in E. now rewrite E.
  - destruct (String.eqb_spec (trim q) "") as [H|H]; [|reflexivity].
    apply trim_empty in H. congruence.
Qed.

(* ------------------------------------------------------------------ *)
(** ** Evaluation of the callbacks and of [Array.prototype.filter]     *)
(* ------------------------------------------------------------------ *)

Lemma lowerIncludes_string (q s : string) :
  lowerIncludes q (JString s)
  = Normal (JBool (includes (toLowerCase s) (toLowerCase q))).
Proof. reflexivity. Qed.

(** The optional chain on a nullable field never throws: it is the
    sub-check on a present field and [undefined] on an absent one. *)
Lemma optionalChain_nullable (q : string) (field : option string) :
  optionalChain (ofNullable field) (lowerIncludes q)
  = Normal match field with
           | Some s => JBool (includes (toLowerCase s) (toLowerCase q))
           | None => JUndefined
           end.
Proof. destruct field; reflexivity. Qed.

(** The text callback completes normally on every place, with a value
    whose truthiness is [textMatches]. *)
Lemma textCallback_value (q : string) (p : Place.t) :
  exists v, textCallback q p = Normal v /\ toBoolean v = textMatches q p.
Proof.
  unfold textCallback, textMatches.
  rewrite !lowerIncludes_string, !optionalChain_nullable.
  destruct (includes (toLowerCase (Place.name p)) (toLowerCase q));
    destruct (includes (toLowerCase (Place.address p)) (toLowerCase q));
    destruct (Place.description p) as [d|];
    try destruct (includes (toLowerCase d) (toLowerCase q));
    destruct (Place.cuisine p) as [c|];
    try destruct (includes (toLowerCase c) (toLowerCase q));
    simpl; eexists; split; reflexivity.
Qed.

Lemma textMatches_TextMatch (q : string) (p : Place.t) :
  textMatches q p = true <-> TextMatch q p.
Proof.
  unfold textMatches, TextMatch.
  rewrite !orb_true_iff, !includes_Substring.
  destruct (Place.description p) as [d|], (Place.cuisine p) as [c|];
    rewrite ?includes_Substring; split;
    intros H; repeat match goal with
    | H : _ \/ _ |- _ => destruct H as [H | H]
    | H : exists _, _ /\ _ |- _ => destruct H as [? [E H]]; inversion E; subst
    | H : false = true |- _ => discriminate H
    end; eauto 8.
Qed.

(** When the callback always completes, [arrayFilter] is the list
    filter by the truthiness of its value. *)
Lemma arrayFilter_Normal {A} (cb : A -> completion jsval) (keep : A -> bool)
      (arr : list A) :
  (forall x, exists v, cb x = Normal v /\ toBoolean v = keep x) ->
  arrayFilter cb arr = Normal (List.filter keep arr).
Proof.
  intros Hcb. induction arr as [|x arr IH]; simpl; [reflexivity|].
  destruct (Hcb x) as [v [-> <-]]. rewrite IH. reflexivity.
Qed.

Lemma textStage_value (q : string) (P : list Place.t) :
  textStage q P
  = Normal (if toBoolean (JString (trim q))
            then List.filter (textMatches q) P else P).
Proof.
  unfold textStage. destruct (toBoolean (JString (trim q))); [|reflexivity].
  apply arrayFilter_Normal, textCallback_value.
Qed.

Lemma categoryStage_value (c : option string) (P : list Place.t) :
  categoryStage c P
  = Normal match c with
           | Some categoryId =>
               if String.eqb categoryId "" then P
               else List.filter (inCategory categoryId) P
           | None => P
           end.
Proof.
  unfold categoryStage. destruct c as [categoryId|]; simpl; [|reflexivity].
  destruct (String.eqb categoryId ""); simpl; [reflexivity|].
  apply arrayFilter_Normal. intros p. eexists; split; reflexivity.
Qed.

Lemma activeStage_value (P : list Place.t) :
  activeStage P = Normal (List.filter Place.isActive P).
Proof.
  apply arrayFilter_Normal. intros p. eexists; split; reflexivity.
Qed.

(** The filter never throws; its result is the input narrowed by the
    three stages in turn. *)
Lemma filtered_value (P : list Place.t) (q : string) (c : option string) :
  exists afterText afterCategory,
    textStage q P = Normal afterText /\
    categoryStage c afterText = Normal afterCategory /\
    filtered P q c = Normal (List.filter Place.isActive afterCategory).
Proof.
  do 2 eexists.
  split; [apply textStage_value|]. split; [apply categoryStage_value|].
  unfold filtered. rewrite textStage_value. simpl.
  rewrite categoryStage_value. simpl. apply activeStage_value.
Qed.

(* ------------------------------------------------------------------ *)
(** ** Lists: selections and subsequences                              *)
(* ------------------------------------------------------------------ *)

Lemma filter_Selects {A} (keep : A -> bool) (Q : A -> Prop) (l : list A) :
  (forall x, keep x = true <-> Q x) -> Selects Q l (List.filter keep l).
Proof.
  intros H. induction l as [|x l IH]; simpl; [constructor|].
  destruct (keep x) eqn:E.
  - apply Selects_keep; [now apply H | exact IH].
  - apply Selects_drop; [|exact IH]. rewrite <- H. congruence.
Qed.

(** A selection is determined by the list and the property. *)
Lemma Selects_functional {A} (Q : A -> Prop) (l k k' : list A) :
  Selects Q l k -> Selects Q l k' -> k = k'.
Proof.
  intros H. revert k'. induction H; intros k' H'; inversion H'; subst;
    try contradiction; auto using f_equal.
Qed.

(** Membership in a selection. *)
Lemma Selects_In {A} (Q : A -> Prop) (l kept : list A) :
  Selects Q l kept -> forall x, In x kept <-> In x l /\ Q x.
Proof.
  induction 1 as [|y l kept Hy _ IH|y l kept Hy _ IH]; intros x; simpl.
  - tauto.
  - rewrite IH. split.
    + intros [->|[? ?]]; auto.
    + intros [[->|?] ?]; auto.
  - rewrite IH. split.
    + intros [? ?]; auto.
    + intros [[->|?] ?]; [contradiction | auto].
Qed.

Lemma Selects_compose {A} (Q R : A -> Prop) (l k m : list A) :
  Selects Q l k -> Selects R k m -> Selects (fun x => Q x /\ R x) l m.
Proof.
  intros H. revert m. induction H; intros m Hm.
  - inversion Hm; constructor.
  - inversion Hm; subst.
    + apply Selects_keep; auto.
    + apply Selects_drop; [tauto | auto].
  - apply Selects_drop; [tauto | auto].
Qed.

Lemma Selects_iff {A} (Q R : A -> Prop) (l k : list A) :
  (forall x, Q x <-> R x) -> Selects Q l k -> Selects R l k.
Proof.
  intros E. induction 1; constructor; auto; now rewrite <- E.
Qed.

Lemma Selects_Subsequence {A} (Q : A -> Prop) (l kept : list A) :
  Selects Q l kept -> Subsequence kept l.
Proof. induction 1; constructor; assumption. Qed.

Lemma Subsequence_refl {A} (l : list A) : Subsequence l l.
Proof. induction l; constructor; assumption. Qed.

Lemma Subsequence_trans {A} (a b c : list A) :
  Subsequence a b -> Subsequence b c -> Subsequence a c.
Proof.
  intros Hab Hbc. revert a Hab.
  induction Hbc as [|x b c _ IH|x b c _ IH]; intros a Hab.
  - exact Hab.
  - inversion Hab; subst; constructor; auto.
  - constructor; auto.
Qed.

Lemma filter_Subsequence {A} (keep : A -> bool) (l : list A) :
  Subsequence (List.filter keep l) l.
Proof.
  apply Selects_Subsequence with (Q := fun x => keep x = true).
  apply filter_Selects. tauto.
Qed.

Lemma increasingFrom_shift (lo : nat) (positions : list nat) :
  increasingFrom lo positions -> increasingFrom (S lo) (map S positions).
Proof.
  revert lo. induction positions as [|i rest IH]; simpl; [trivial|].
  intros lo [Hlo H]. split; [lia | auto].
Qed.

Lemma occursAt_shift {A} (x : A) (sub : list A) (positions : list nat)
      (l : list A) :
  occursAt sub positions l -> occursAt sub (map S positions) (x :: l).
Proof.
  revert positions. induction sub as [|y sub IH]; intros [|i rest]; simpl;
    try tauto.
  intros [H1 H2]. split; auto.
Qed.

(** A subsequence sits in the list at strictly increasing positions. *)
Lemma Subsequence_positions {A} (sub l : list A) :
  Subsequence sub l ->
  exists positions, increasingFrom 0 positions /\ occursAt sub positions l.
Proof.
  induction 1 as [|x sub l _ [ps [Hi Ho]]|x sub l _ [ps [Hi Ho]]].
  - exists []. simpl. auto.
  - exists (0 :: map S ps). simpl. repeat split; auto.
    + now apply increasingFrom_shift.
    + now apply occursAt_shift.
  - exists (map S ps). split.
    + apply increasingFrom_shift in Hi.
      clear -Hi. destruct ps; simpl in *; [trivial|]. destruct Hi. split; [lia|auto].
    + now apply occursAt_shift.
Qed.

(* ------------------------------------------------------------------ *)
(** ** The filter on the sample data                                   *)
(* ------------------------------------------------------------------ *)

Example filtered_sample_query :
  filtered samplePlaces "andong" None = Normal [hahoeHouse; jjimdakAlley].
Proof. reflexivity. Qed.

Example filtered_sample_category :
  filtered samplePlaces "" (Some "food") = Normal [jjimdakAlley].
Proof. reflexivity. Qed.

Example filtered_sample_cuisine :
  filtered samplePlaces "KOREAN" None = Normal [jjimdakAlley].
Proof. reflexivity. Qed.

(* ------------------------------------------------------------------ *)
(** ** The filter: stage by stage                                      *)
(* ------------------------------------------------------------------ *)

(** The running text stage selects the matching places. *)
Lemma textStage_Selects (P : list Place.t) (q : string) :
  trim q <> "" ->
  exists kept, textStage q P = Normal kept /\ Selects (TextMatch q) P kept.
Proof.
  intros H. rewrite textStage_value. simpl.
  apply String.eqb_neq in H. rewrite H. simpl. eexists. split; [reflexivity|].
  apply filter_Selects. intros p. apply textMatches_TextMatch.
Qed.

Lemma textStage_skipped (P : list Place.t) (q : string) :
  trim q = "" -> textStage q P = Normal P.
Proof. intros H. unfold textStage. now rewrite H. Qed.

(** C1.  When the trimmed query is not empty, the text stage keeps a
    place exactly when the lower-cased query, untrimmed, is a substring
    of the lower-cased name, address, description (if present) or
    cuisine (if present); when the trimmed query is empty the stage is
    skipped and every place is kept. *)
Theorem text_stage_keeps_matching_places (P : list Place.t) (q : string) :
  (trim q <> "" ->
   exists kept, textStage q P = Normal kept /\ Selects (TextMatch q) P kept) /\
  (trim q = "" -> textStage q P = Normal P).
Proof.
  split; [apply textStage_Selects | apply textStage_skipped].
Qed.

Lemma text_stage_keeps_matching_places_witness :
  (exists kept, textStage " Alley" samplePlaces = Normal kept /\
                Selects (TextMatch " Alley") samplePlaces kept) /\
  textStage "   " samplePlaces = Normal samplePlaces.
Proof.
  split.
  - apply (proj1 (text_stage_keeps_matching_places samplePlaces " Alley")).
    vm_compute. discriminate.
  - apply (proj2 (text_stage_keeps_matching_places samplePlaces "   ")).
    reflexivity.
Defined.

(** The needle of the text stage is the query as typed: a query with
    surrounding blanks does not match a field that lacks them. *)
Example text_stage_untrimmed_needle :
  textStage " Alley " [jjimdakAlley] = Normal [] /\
  textStage "Alley" [jjimdakAlley] = Normal [jjimdakAlley].
Proof. split; reflexivity. Qed.

(** C2.  Whatever the query and the category selection, the filter
    returns a list in which no inactive place occurs. *)
Theorem inactive_places_excluded (P : list Place.t) (q : string)
        (c : option string) :
  exists result,
    filtered P q c = Normal result /\
    forall p, Place.isActive p = false -> ~ In p result.
Proof.
  destruct (filtered_value P q c) as [afterText [afterCategory [_ [_ H]]]].
  eexists. split; [exact H|].
  intros p Hp Hin. apply filter_In in Hin. destruct Hin as [_ Hin]. congruence.
Qed.

(** C3.  With an empty query and the selector ["cat-1"], the filter
    returns exactly the active places of category ["cat-1"]; with no
    selector the category stage returns its input and the filter
    returns exactly the active places. *)
Theorem category_exact_match (P : list Place.t) :
  (exists result,
      filtered P "" (Some "cat-1") = Normal result /\
      Selects (fun p => Place.isActive p = true /\ Place.categoryId p = "cat-1")
              P result) /\
  categoryStage None P = Normal P /\
  (exists result,
      filtered P "" None = Normal result /\
      Selects (fun p => Place.isActive p = true) P result).
Proof.
  split; [|split].
  - exists (List.filter Place.isActive (List.filter (inCategory "cat-1") P)).
    split.
    + unfold filtered. rewrite textStage_value. simpl.
      rewrite categoryStage_value. simpl. apply activeStage_value.
    + apply Selects_iff
        with (Q := fun p => Place.categoryId p = "cat-1" /\ Place.isActive p = true);
        [tauto|].
      eapply Selects_compose; apply filter_Selects; intros p;
        [apply String.eqb_eq | tauto].
  - reflexivity.
  - exists (List.filter Place.isActive P). split.
    + unfold filtered. rewrite textStage_value. simpl. apply activeStage_value.
    + apply filter_Selects. tauto.
Qed.

(** Any non-empty selector behaves as ["cat-1"] does. *)
Lemma category_stage_nonempty_selector (P : list Place.t) (categoryId : string) :
  categoryId <> "" ->
  exists kept,
    categoryStage (Some categoryId) P = Normal kept /\
    Selects (fun p => Place.categoryId p = categoryId) P kept.
Proof.
  intros H. rewrite categoryStage_value. apply String.eqb_neq in H. rewrite H.
  eexists. split; [reflexivity|].
  apply filter_Selects. intros p. apply String.eqb_eq.
Qed.

(** The empty string is falsy: as a selector it skips the stage, as a
    null selector does. *)
Lemma category_stage_empty_selector (P : list Place.t) :
  categoryStage (Some "") P = Normal P.
Proof. reflexivity. Qed.

(** C4.  The result of the filter is a subsequence of the input: it is
    obtained by deleting elements, so its elements sit in the input at
    strictly increasing positions. *)
Theorem result_is_subsequence (P : list Place.t) (q : string)
        (c : option string) :
  exists result,
    filtered P q c = Normal result /\
    Subsequence result P /\
    exists positions,
      increasingFrom 0 positions /\ occursAt result positions P.
Proof.
  destruct (filtered_value P q c) as [afterText [afterCategory [Ht [Hc H]]]].
  assert (S : Subsequence (List.filter Place.isActive afterCategory) P).
  { apply Subsequence_trans with afterCategory; [apply filter_Subsequence|].
    apply Subsequence_trans with afterText.
    - rewrite categoryStage_value in Hc. injection Hc as <-.
      destruct c as [categoryId|]; [|apply Subsequence_refl].
      destruct (String.eqb categoryId "");
        [apply Subsequence_refl | apply filter_Subsequence].
    - rewrite textStage_value in Ht. injection Ht as <-.
      destruct (negb (String.eqb (trim q) ""));
        [apply filter_Subsequence | apply Subsequence_refl]. }
  eexists. split; [exact H|]. split; [exact S|].
  now apply Subsequence_positions.
Qed.

(** Every query made of white space only acts as the empty query. *)
Lemma blank_query_is_no_text_filter (P : list Place.t) (q : string)
      (c : option string) :
  allWhiteSpace q = true -> filtered P q c = filtered P "" c.
Proof.
  intros H. apply trim_empty in H. unfold filtered, textStage. now rewrite H.
Qed.

(** C5.  The empty query and the query of three blanks give the same
    result, for every list and every category selection. *)
Theorem empty_and_blank_query_agree (P : list Place.t) (c : option string) :
  filtered P "" c = filtered P "   " c.
Proof.
  symmetry. apply blank_query_is_no_text_filter. reflexivity.
Qed.

(** The filter reads the query only through [toLowerCase] and through
    the emptiness of [trim], which lower-casing does not change. *)
Lemma filtered_lower_query (P : list Place.t) (q q' : string)
      (c : option string) :
  toLowerCase q = toLowerCase q' -> filtered P q c = filtered P q' c.
Proof.
  intros H. unfold filtered. rewrite !textStage_value, !trim_truthy_lower, H.
  rewrite (filter_ext (textMatches q) (textMatches q')); [reflexivity|].
  intros p. unfold textMatches. now rewrite H.
Qed.

(** C6.  ["CAFE"] and ["cafe"] give the same result on every list.
    More generally two queries with the same lower-case form give the
    same result, for every list and every category selection. *)
Theorem query_case_insensitive :
  (forall P, filtered P "CAFE" None = filtered P "cafe" None) /\
  (forall P q q' c,
      toLowerCase q = toLowerCase q' -> filtered P q c = filtered P q' c).
Proof.
  split.
  - intros P. now apply filtered_lower_query.
  - intros P q q' c H. now apply filtered_lower_query.
Qed.

Lemma query_case_insensitive_witness :
  filtered samplePlaces "aNdOnG" (Some "food")
  = filtered samplePlaces "Andong" (Some "food").
Proof.
  apply (proj2 query_case_insensitive). reflexivity.
Defined.

(** Upper-casing a query can change its result: the upper-case form of
    [stra<sharp s>e] is [STRASSE], whose lower-case form is [strasse];
    the first query finds the place, the second does not. *)
Lemma query_upper_case_changes_result :
  toUpperCase strasse = Some "STRASSE" /\
  filtered [hauptstrasse] strasse None = Normal [hauptstrasse] /\
  filtered [hauptstrasse] "STRASSE" None = Normal [] /\
  filtered [hauptstrasse] strasse None
  <> filtered [hauptstrasse] "STRASSE" None.
Proof.
  repeat split; try reflexivity. vm_compute. discriminate.
Qed.

(** C7.  For a place without description and cuisine the two optional
    sub-checks evaluate to [undefined], the callback completes normally
    and is truthy exactly on a match in name or address; the filter
    returns a result, and such a place passes a running text stage
    exactly on such a match. *)
Theorem absent_optional_fields_do_not_match (p : Place.t) (q : string) :
  Place.description p = None ->
  Place.cuisine p = None ->
  optionalChain (ofNullable (Place.description p)) (lowerIncludes q)
  = Normal JUndefined /\
  optionalChain (ofNullable (Place.cuisine p)) (lowerIncludes q)
  = Normal JUndefined /\
  (exists v,
      textCallback q p = Normal v /\
      (toBoolean v = true <->
       Substring (toLowerCase q) (toLowerCase (Place.name p)) \/
       Substring (toLowerCase q) (toLowerCase (Place.address p)))) /\
  (forall P c, exists result, filtered P q c = Normal result) /\
  (forall P,
      trim q <> "" ->
      exists kept,
        textStage q P = Normal kept /\
        (In p kept <->
         In p P /\
         (Substring (toLowerCase q) (toLowerCase (Place.name p)) \/
          Substring (toLowerCase q) (toLowerCase (Place.address p))))).
Proof.
  intros Hd Hc.
  assert (M : TextMatch q p <->
              Substring (toLowerCase q) (toLowerCase (Place.name p)) \/
              Substring (toLowerCase q) (toLowerCase (Place.address p))).
  { unfold TextMatch. rewrite Hd, Hc. split.
    - intros [H|[H|[[d [E _]]|[d [E _]]]]]; auto; discriminate.
    - intros [H|H]; auto. }
  rewrite Hd, Hc. repeat split; try reflexivity.
  - destruct (textCallback_value q p) as [v [Hv Hb]]. exists v.
    split; [exact Hv|]. now rewrite Hb, textMatches_TextMatch.
  - intros P c. destruct (filtered_value P q c) as [? [? [_ [_ H]]]]. eauto.
  - intros P Hq.
    destruct (textStage_Selects P q Hq) as [kept [Hk Hs]].
    exists kept. split; [exact Hk|].
    now rewrite (Selects_In Hs), M.
Qed.

Lemma absent_optional_fields_do_not_match_witness :
  exists kept,
    textStage "hahoe" samplePlaces = Normal kept /\
    (In hahoeHouse kept <->
     In hahoeHouse samplePlaces /\
     (Substring (toLowerCase "hahoe") (toLowerCase (Place.name hahoeHouse)) \/
      Substring (toLowerCase "hahoe") (toLowerCase (Place.address hahoeHouse)))).
Proof.
  apply (absent_optional_fields_do_not_match
           hahoeHouse "hahoe" eq_refl eq_refl).
  vm_compute. discriminate.
Defined.

(* ------------------------------------------------------------------ *)
(** ** The store                                                       *)
(* ------------------------------------------------------------------ *)

Lemma filtered_total (P : list Place.t) (q : string) (c : option string) :
  exists result, filtered P q c = Normal result.
Proof. destruct (filtered_value P q c) as [? [? [_ [_ H]]]]. eauto. Qed.

(** [filterPlaces] replaces the cached view by the filter's result. *)
Lemma exec_filterPlaces (s : PlaceState) (result : list Place.t) :
  filtered (places s) (searchQuery s) (selectedCategoryId s) = Normal result ->
  exec filterPlaces s
  = Normal {| places := places s; categories := categories s;
              selectedPlace := selectedPlace s; filteredPlaces := result;
              searchQuery := searchQuery s;
              selectedCategoryId := selectedCategoryId s |}.
Proof.
  intros H. unfold exec, filterPlaces, bind, get, lift, set. simpl.
  rewrite H. reflexivity.
Qed.

(** An action that writes some keys and then calls [filterPlaces]. *)
Lemma exec_set_then_filterPlaces (patch : PlaceStatePatch) (s : PlaceState) :
  exec (bind (set patch) (fun _ => filterPlaces)) s
  = exec filterPlaces (merge s patch).
Proof. reflexivity. Qed.

Lemma removePlace_remaining (id : string) (P : list Place.t) :
  arrayFilter
    (fun place =>
       Normal (JBool (negb (strictEquals (JString (Place.id place)) (JString id)))))
    P
  = Normal (List.filter (fun place => negb (String.eqb (Place.id place) id)) P).
Proof. apply arrayFilter_Normal. intros p. eexists. split; reflexivity. Qed.

Lemma exec_removePlace (id : string) (s : PlaceState) :
  exec (removePlace id) s
  = exec filterPlaces
      (merge s {| places' := Some (List.filter
                                     (fun place => negb (String.eqb (Place.id place) id))
                                     (places s));
                  categories' := None; selectedPlace' := None;
                  filteredPlaces' := None; searchQuery' := None;
                  selectedCategoryId' := None |}).
Proof.
  unfold exec, removePlace, bind, get, lift. cbn [cbind fst snd].
  rewrite removePlace_remaining. reflexivity.
Qed.

(* ------------------------------------------------------------------ *)
(** ** Arrays by reference: what [filterPlaces] reads and allocates    *)
(* ------------------------------------------------------------------ *)

Lemma deref_alloc_new (h : ByReference.heap) (arr : list Place.t) :
  ByReference.deref (h ++ [arr])%list (List.length h) = arr.
Proof. unfold ByReference.deref. apply nth_middle. Qed.

Lemma deref_alloc_old (h : ByReference.heap) (arr : list Place.t) (a : nat) :
  a < List.length h ->
  ByReference.deref (h ++ [arr])%list a = ByReference.deref h a.
Proof. intros H. unfold ByReference.deref. now apply app_nth1. Qed.

(** One stage over references: it either leaves reference and heap as
    they are, or reads its array and allocates the filtered one behind
    every existing array. *)
Lemma stage_by_reference (run : bool) (cb : Place.t -> completion jsval)
      (keep : Place.t -> bool) (r : ByReference.ref) (h : ByReference.heap) :
  (forall x, exists v, cb x = Normal v /\ toBoolean v = keep x) ->
  exists r' h',
    (if run then ByReference.arrayFilterAt cb r h else Normal (r, h))
    = Normal (r', h') /\
    ByReference.deref h' r'
    = (if run then List.filter keep (ByReference.deref h r)
       else ByReference.deref h r) /\
    (run = true -> r' = List.length h) /\
    List.length h <= List.length h' /\
    (forall a, a < List.length h ->
               ByReference.deref h' a = ByReference.deref h a).
Proof.
  intros Hcb. destruct run.
  - exists (List.length h), (h ++ [List.filter keep (ByReference.deref h r)])%list.
    unfold ByReference.arrayFilterAt.
    rewrite (arrayFilter_Normal cb keep _ Hcb). simpl.
    rewrite deref_alloc_new, length_app. simpl.
    repeat split; [lia|]. intros a Ha. now apply deref_alloc_old.
  - exists r, h. repeat split; [discriminate | lia].
Qed.

Lemma filteredAt_allocates (h : ByReference.heap) (placesRef : ByReference.ref)
      (q : string) (c : option string) :
  exists r h',
    ByReference.filteredAt placesRef q c h = Normal (r, h') /\
    List.length h <= r /\
    (forall a, a < List.length h ->
               ByReference.deref h' a = ByReference.deref h a) /\
    filtered (ByReference.deref h placesRef) q c
    = Normal (ByReference.deref h' r).
Proof.
  unfold ByReference.filteredAt, filtered, textStage, categoryStage, activeStage.
  destruct (stage_by_reference (toBoolean (JString (trim q)))
              (textCallback q) (textMatches q) placesRef h
              (textCallback_value q))
    as [r1 [h1 [E1 [D1 [_ [L1 P1]]]]]].
  rewrite E1. cbn [cbind fst snd].
  destruct (stage_by_reference (toBoolean (ofNullable c))
              (categoryCallback c)
              (fun p => strictEquals (JString (Place.categoryId p)) (ofNullable c))
              r1 h1)
    as [r2 [h2 [E2 [D2 [_ [L2 P2]]]]]].
  { intros p. eexists. split; reflexivity. }
  rewrite E2. cbn [cbind fst snd].
  destruct (stage_by_reference true activeCallback Place.isActive r2 h2)
    as [r3 [h3 [E3 [D3 [R3 [L3 P3]]]]]].
  { intros p. eexists. split; reflexivity. }
  rewrite E3. exists r3, h3. split; [reflexivity|].
  split; [specialize (R3 eq_refl); lia|]. split.
  - intros a Ha. rewrite P3, P2, P1; auto; lia.
  - rewrite D3, D2, D1.
    destruct (toBoolean (JString (trim q)));
      rewrite ?(arrayFilter_Normal _ _ _ (textCallback_value q));
      cbn [cbind];
      (destruct (toBoolean (ofNullable c));
       [rewrite (arrayFilter_Normal (categoryCallback c)
                   (fun p => strictEquals (JString (Place.categoryId p))
                                          (ofNullable c)))
         by (intros p; eexists; split; reflexivity)|];
       cbn [cbind];
       apply arrayFilter_Normal; intros p; eexists; split; reflexivity).
Qed.

(** C8.  [filterPlaces] completes and changes no field of the state but
    [filteredPlaces], which becomes the filter's result; over arrays
    held by reference it writes to no existing array and returns a
    newly allocated one. *)
Theorem filterPlaces_only_replaces_filteredPlaces :
  (forall s,
      exists s',
        exec filterPlaces s = Normal s' /\
        places s' = places s /\
        categories s' = categories s /\
        selectedPlace s' = selectedPlace s /\
        searchQuery s' = searchQuery s /\
        selectedCategoryId s' = selectedCategoryId s /\
        filtered (places s) (searchQuery s) (selectedCategoryId s)
        = Normal (filteredPlaces s')) /\
  (forall h placesRef q c,
      exists r h',
        ByReference.filteredAt placesRef q c h = Normal (r, h') /\
        List.length h <= r /\
        (forall a, a < List.length h ->
                   ByReference.deref h' a = ByReference.deref h a) /\
        filtered (ByReference.deref h placesRef) q c
        = Normal (ByReference.deref h' r)).
Proof.
  split.
  - intros s.
    destruct (filtered_total (places s) (searchQuery s) (selectedCategoryId s))
      as [result H].
    eexists. split; [apply (exec_filterPlaces s H)|]. simpl. auto 10.
  - apply filteredAt_allocates.
Qed.

(* ------------------------------------------------------------------ *)
(** ** The filter as a whole                                           *)
(* ------------------------------------------------------------------ *)

Lemma filter_filter {A} (f g : A -> bool) (l : list A) :
  List.filter g (List.filter f l) = List.filter (fun x => f x && g x) l.
Proof.
  induction l as [|x l IH]; simpl; [reflexivity|].
  destruct (f x); simpl; [destruct (g x)|]; now rewrite IH.
Qed.

Lemma filter_all {A} (l : list A) : List.filter (fun _ => true) l = l.
Proof. induction l as [|x l IH]; simpl; [reflexivity | now rewrite IH]. Qed.

(** The three stages amount to one filter by [passesb]. *)
Lemma filtered_passesb (P : list Place.t) (q : string) (c : option string) :
  filtered P q c = Normal (List.filter (passesb q c) P).
Proof.
  unfold filtered. rewrite textStage_value. cbn [cbind].
  rewrite categoryStage_value. cbn [cbind]. rewrite activeStage_value.
  f_equal.
  set (runText := toBoolean (JString (trim q))).
  assert (T : (if runText then List.filter (textMatches q) P else P)
              = List.filter (fun p => if runText then textMatches q p else true) P).
  { destruct runText; [reflexivity | now rewrite filter_all]. }
  rewrite T.
  set (afterText := List.filter _ P).
  assert (C : match c with
              | Some categoryId =>
                  if String.eqb categoryId "" then afterText
                  else List.filter (inCategory categoryId) afterText
              | None => afterText
              end
              = List.filter
                  (fun p => match c with
                            | Some categoryId =>
                                if String.eqb categoryId "" then true
                                else inCategory categoryId p
                            | None => true
                            end) afterText).
  { destruct c as [categoryId|]; [destruct (String.eqb categoryId "")|];
      try reflexivity; now rewrite filter_all. }
  rewrite C. unfold afterText. rewrite !filter_filter.
  apply filter_ext. intros p. unfold passesb, runText. now rewrite andb_assoc.
Qed.

Lemma passesb_passes (q : string) (c : option string) (p : Place.t) :
  passesb q c p = true <-> passes q c p.
Proof.
  unfold passesb, passes. rewrite !andb_true_iff.
  assert (T : (if toBoolean (JString (trim q)) then textMatches q p else true) = true
              <-> trim q = "" \/ TextMatch q p).
  { simpl. destruct (String.eqb_spec (trim q) "") as [E|E]; simpl.
    - split; auto.
    - rewrite textMatches_TextMatch. split; [auto | intros [H|H]; tauto]. }
  assert (C : match c with
              | Some categoryId =>
                  if String.eqb categoryId "" then true else inCategory categoryId p
              | None => true
              end = true
              <-> match c with
                  | Some categoryId =>
                      categoryId = "" \/ Place.categoryId p = categoryId
                  | None => True
                  end).
  { destruct c as [categoryId|]; [|tauto].
    destruct (String.eqb_spec categoryId "") as [E|E].
    - split; auto.
    - unfold inCategory. rewrite String.eqb_eq. split; [auto | intros [H|H]; tauto]. }
  rewrite T, C. tauto.
Qed.



Lemma filter_idempotent {A} (f : A -> bool) (l : list A) :
  List.filter f (List.filter f l) = List.filter f l.
Proof.
  rewrite filter_filter. apply filter_ext. intros x. now destruct (f x).
Qed.

(** X3.  Filtering a result again with the same query and selector
    returns it unchanged. *)
Theorem filtered_idempotent (P result : list Place.t) (q : string)
        (c : option string) :
  filtered P q c = Normal result -> filtered result q c = Normal result.
Proof.
  rewrite !filtered_passesb. intros H. injection H as <-.
  now rewrite filter_idempotent.
Qed.

Lemma filtered_idempotent_witness :
  filtered [hahoeHouse; jjimdakAlley] "andong" None
  = Normal [hahoeHouse; jjimdakAlley].
Proof.
  apply (@filtered_idempotent samplePlaces). reflexivity.
Defined.

Lemma filter_narrower_Subsequence {A} (f g : A -> bool) (l : list A) :
  (forall x, f x = true -> g x = true) ->
  Subsequence (List.filter f l) (List.filter g l).
Proof.
  intros H. induction l as [|x l IH]; simpl; [constructor|].
  destruct (f x) eqn:F.
  - rewrite (H x F). now constructor.
  - destruct (g x); [constructor|]; exact IH.
Qed.

(** X4.  A query or a selector only narrows: the result for a query and
    a selector is a subsequence of the result for the same selector
    with the empty query, and of the result for the same query with no
    selector. *)
Theorem filtered_narrows (P : list Place.t) (q : string) (c : option string) :
  exists result noQuery noSelector,
    filtered P q c = Normal result /\
    filtered P "" c = Normal noQuery /\
    filtered P q None = Normal noSelector /\
    Subsequence result noQuery /\
    Subsequence result noSelector.
Proof.
  do 3 eexists. rewrite !filtered_passesb.
  repeat split; apply filter_narrower_Subsequence; intros p;
    unfold passesb; rewrite !andb_true_iff; simpl; tauto.
Qed.

(* ------------------------------------------------------------------ *)
(** ** The place store: closed forms of the actions                    *)
(* ------------------------------------------------------------------ *)

Lemma exec_filterPlaces_closed (s : PlaceState) :
  exec filterPlaces s = Normal (withPlaces (places s) s).
Proof. apply exec_filterPlaces, filtered_passesb. Qed.

Lemma consistent_passesb (s : PlaceState) :
  consistent s <->
  filteredPlaces s
  = List.filter (passesb (searchQuery s) (selectedCategoryId s)) (places s).
Proof.
  unfold consistent. rewrite filtered_passesb. split; congruence.
Qed.

Lemma withPlaces_same (s : PlaceState) :
  consistent s -> withPlaces (places s) s = s.
Proof.
  intros H. apply consistent_passesb in H. destruct s. unfold withPlaces.
  simpl in *. now rewrite <- H.
Qed.

Lemma exec_setPlaces (P : list Place.t) (s : PlaceState) :
  exec (setPlaces P) s = Normal (withPlaces P s).
Proof.
  unfold setPlaces. rewrite exec_set_then_filterPlaces.
  rewrite exec_filterPlaces_closed. reflexivity.
Qed.

Lemma exec_setSearchQuery (q : string) (s : PlaceState) :
  exec (setSearchQuery q) s = Normal (withCriteria q (selectedCategoryId s) s).
Proof.
  unfold setSearchQuery. rewrite exec_set_then_filterPlaces.
  rewrite exec_filterPlaces_closed. reflexivity.
Qed.

Lemma exec_setSelectedCategory (c : option string) (s : PlaceState) :
  exec (setSelectedCategory c) s = Normal (withCriteria (searchQuery s) c s).
Proof.
  unfold setSelectedCategory. rewrite exec_set_then_filterPlaces.
  rewrite exec_filterPlaces_closed. reflexivity.
Qed.

Lemma exec_addPlace (p : Place.t) (s : PlaceState) :
  exec (addPlace p) s = Normal (withPlaces (places s ++ [p])%list s).
Proof.
  change (exec (addPlace p) s)
    with (exec filterPlaces
            (merge s {| places' := Some (places s ++ [p])%list;
                        categories' := None; selectedPlace' := None;
                        filteredPlaces' := None; searchQuery' := None;
                        selectedCategoryId' := None |})).
  rewrite exec_filterPlaces_closed. reflexivity.
Qed.

Lemma exec_updatePlace_closed (id : string) (updates : Place.partial)
      (s : PlaceState) :
  exec (updatePlace id updates) s
  = Normal (withPlaces (map (updateOne id updates) (places s)) s).
Proof.
  change (exec (updatePlace id updates) s)
    with (exec filterPlaces
            (merge s {| places' := Some (map (updateOne id updates) (places s));
                        categories' := None; selectedPlace' := None;
                        filteredPlaces' := None; searchQuery' := None;
                        selectedCategoryId' := None |})).
  rewrite exec_filterPlaces_closed. reflexivity.
Qed.

Lemma exec_removePlace_closed (id : string) (s : PlaceState) :
  exec (removePlace id) s
  = Normal (withPlaces
              (List.filter (fun place => negb (String.eqb (Place.id place) id))
                           (places s)) s).
Proof.
  rewrite exec_removePlace, exec_filterPlaces_closed. reflexivity.
Qed.

(** Running one action after another. *)
Lemma exec_then {A} (m : store unit) (k : store A) (s s1 : PlaceState) :
  exec m s = Normal s1 -> exec (bind m (fun _ => k)) s = exec k s1.
Proof.
  unfold exec, bind. destruct (m s) as [[u s2]|]; simpl; [|discriminate].
  now intros [= ->].
Qed.

(* ------------------------------------------------------------------ *)
(** ** The place store: what the actions do to [places] and the view   *)
(* ------------------------------------------------------------------ *)

(** X6.  In a consistent state [addPlace] puts the place at the end of
    [places]; the cached view keeps its entries and gains the place at
    its end exactly when the place passes the current query and
    selector. *)
Theorem addPlace_extends_cached_view (s : PlaceState) (p : Place.t) :
  consistent s ->
  exists s',
    exec (addPlace p) s = Normal s' /\
    places s' = (places s ++ [p])%list /\
    (passes (searchQuery s) (selectedCategoryId s) p ->
     filteredPlaces s' = (filteredPlaces s ++ [p])%list) /\
    (~ passes (searchQuery s) (selectedCategoryId s) p ->
     filteredPlaces s' = filteredPlaces s).
Proof.
  intros H. apply consistent_passesb in H.
  eexists. split; [apply exec_addPlace|]. split; [reflexivity|].
  simpl. rewrite filter_app, <- H. simpl.
  destruct (passesb (searchQuery s) (selectedCategoryId s) p) eqn:E.
  - split; [reflexivity|]. intros N. apply passesb_passes in E. contradiction.
  - rewrite app_nil_r. split; [|reflexivity].
    intros Y. apply passesb_passes in Y. congruence.
Qed.

Lemma addPlace_extends_cached_view_witness :
  exists s',
    exec (addPlace jjimdakAlley) afterFirstAdd = Normal s' /\
    filteredPlaces s' = [hahoeHouse; jjimdakAlley].
Proof.
  assert (C : consistent afterFirstAdd) by reflexivity.
  destruct (addPlace_extends_cached_view jjimdakAlley C)
    as [s' [E [_ [Y _]]]].
  exists s'. split; [exact E|]. apply Y.
  apply passesb_passes. reflexivity.
Defined.


Lemma filter_keeps_all {A} (f : A -> bool) (l : list A) :
  (forall x, In x l -> f x = true) -> List.filter f l = l.
Proof.
  induction l as [|x l IH]; simpl; intros H; [reflexivity|].
  rewrite (H x) by auto. f_equal. apply IH. auto.
Qed.

(** X8.  In a consistent state, removing an id that no place carries
    leaves the whole state as it is. *)
Theorem removePlace_absent_id (s : PlaceState) (id : string) :
  consistent s ->
  (forall p, In p (places s) -> Place.id p <> id) ->
  exec (removePlace id) s = Normal s.
Proof.
  intros C H. rewrite exec_removePlace_closed, filter_keeps_all.
  - now rewrite withPlaces_same.
  - intros p Hin. apply negb_true_iff, String.eqb_neq. auto.
Qed.

Lemma removePlace_absent_id_witness :
  exec (removePlace "p7") afterFirstAdd = Normal afterFirstAdd.
Proof.
  apply removePlace_absent_id; [reflexivity|].
  intros p [<-|[]]. vm_compute. discriminate.
Defined.

(** X9.  In a consistent state in which no place carries the id of
    [p], adding [p] and then removing it by its id restores the
    state. *)
Theorem addPlace_then_removePlace (s : PlaceState) (p : Place.t) :
  consistent s ->
  (forall p', In p' (places s) -> Place.id p' <> Place.id p) ->
  exec (bind (addPlace p) (fun _ => removePlace (Place.id p))) s = Normal s.
Proof.
  intros C H. erewrite exec_then by apply exec_addPlace.
  rewrite exec_removePlace_closed. simpl.
  rewrite filter_app. simpl. rewrite String.eqb_refl. simpl.
  rewrite app_nil_r, filter_keeps_all.
  - change (Normal (withPlaces (places s) s) = Normal s).
    now rewrite withPlaces_same.
  - intros p' Hin. apply negb_true_iff, String.eqb_neq. auto.
Qed.

Lemma addPlace_then_removePlace_witness :
  exec (bind (addPlace jjimdakAlley) (fun _ => removePlace "p2")) afterFirstAdd
  = Normal afterFirstAdd.
Proof.
  apply (@addPlace_then_removePlace afterFirstAdd jjimdakAlley); [reflexivity|].
  intros p [<-|[]]. vm_compute. discriminate.
Defined.

Lemma override_idempotent {A} (old : A) (new : option A) :
  override (override old new) new = override old new.
Proof. destruct new; reflexivity. Qed.

Lemma spread_idempotent (p : Place.t) (u : Place.partial) :
  Place.spread (Place.spread p u) u = Place.spread p u.
Proof.
  unfold Place.spread. simpl. now rewrite !override_idempotent.
Qed.

Lemma updateOne_idempotent (id : string) (u : Place.partial) (p : Place.t) :
  updateOne id u (updateOne id u p) = updateOne id u p.
Proof.
  unfold updateOne. destruct (String.eqb (Place.id p) id) eqn:E.
  - destruct (String.eqb (Place.id (Place.spread p u)) id);
      [apply spread_idempotent | reflexivity].
  - now rewrite E.
Qed.

(** X11.  [updatePlace] is idempotent: applying the same update to the
    state it produced changes nothing, whether or not the update
    carries an [id] key. *)
Theorem updatePlace_idempotent (s s' : PlaceState) (id : string)
        (updates : Place.partial) :
  exec (updatePlace id updates) s = Normal s' ->
  exec (updatePlace id updates) s' = Normal s'.
Proof.
  rewrite !exec_updatePlace_closed. intros [= <-]. f_equal.
  unfold withPlaces. simpl. rewrite map_map.
  rewrite (map_ext _ _ (updateOne_idempotent id updates)). reflexivity.
Qed.

Lemma updatePlace_idempotent_witness :
  exec (updatePlace "p1" renameAndHide)
       {| places := [Place.spread hahoeHouse renameAndHide];
          categories := []; selectedPlace := None; filteredPlaces := [];
          searchQuery := ""; selectedCategoryId := None |}
  = Normal {| places := [Place.spread hahoeHouse renameAndHide];
              categories := []; selectedPlace := None; filteredPlaces := [];
              searchQuery := ""; selectedCategoryId := None |}.
Proof.
  apply (@updatePlace_idempotent afterFirstAdd). reflexivity.
Defined.

(** X12.  Only [setSelectedPlace] writes [selectedPlace] and only
    [setCategories] writes [categories]: every other action leaves
    them as they were. *)
Theorem selection_and_categories_frame (a : action) (s s' : PlaceState) :
  exec (perform a) s = Normal s' ->
  ((forall place, a <> SetSelectedPlace place) ->
   selectedPlace s' = selectedPlace s) /\
  ((forall newCategories, a <> SetCategories newCategories) ->
   categories s' = categories s).
Proof.
  destruct a; simpl;
    rewrite ?exec_setPlaces, ?exec_setSearchQuery, ?exec_setSelectedCategory,
      ?exec_addPlace, ?exec_updatePlace_closed, ?exec_removePlace_closed,
      ?exec_filterPlaces_closed;
    intros [= <-]; split; intros H; try reflexivity;
    exfalso; eapply H; reflexivity.
Qed.

Lemma selection_and_categories_frame_witness :
  selectedPlace afterFirstAdd = selectedPlace initialState /\
  categories afterFirstAdd = categories initialState.
Proof.
  destruct (@selection_and_categories_frame
              (AddPlace hahoeHouse) initialState afterFirstAdd eq_refl)
    as [S C].
  split; [apply S | apply C]; discriminate.
Defined.

(** X13.  [removePlace] does not clear the selection: when the selected
    place is removed by its id, it is gone from [places] and still the
    value of [selectedPlace]. *)
Theorem removePlace_keeps_selection (s : PlaceState) (p : Place.t) :
  selectedPlace s = Some p ->
  exists s',
    exec (removePlace (Place.id p)) s = Normal s' /\
    selectedPlace s' = Some p /\
    ~ In p (places s').
Proof.
  intros H. eexists. split; [apply exec_removePlace_closed|]. simpl.
  split; [exact H|]. intros Hin. apply filter_In in Hin.
  destruct Hin as [_ Hin]. now rewrite String.eqb_refl in Hin.
Qed.

Lemma removePlace_keeps_selection_witness :
  exists s',
    exec (removePlace "p1")
         {| places := [hahoeHouse]; categories := [];
            selectedPlace := Some hahoeHouse; filteredPlaces := [hahoeHouse];
            searchQuery := ""; selectedCategoryId := None |} = Normal s' /\
    selectedPlace s' = Some hahoeHouse /\
    ~ In hahoeHouse (places s').
Proof.
  apply (@removePlace_keeps_selection
           {| places := [hahoeHouse]; categories := [];
              selectedPlace := Some hahoeHouse; filteredPlaces := [hahoeHouse];
              searchQuery := ""; selectedCategoryId := None |} hahoeHouse).
  reflexivity.
Defined.


(* ------------------------------------------------------------------ *)
(** ** The auth store                                                  *)
(* ------------------------------------------------------------------ *)

(** X16.  In every state the auth store can reach by setUser,
    setLoading, login and logout, [isAuthenticated] is true exactly
    when [user] is not null. *)
Theorem auth_flag_tracks_user (s : Auth.state) :
  Auth.reachable s ->
  (Auth.isAuthenticated s = true <-> Auth.user s <> None).
Proof.
  induction 1 as [|a s _ IH].
  - simpl. split; [discriminate | congruence].
  - destruct a as [[u|]| | |]; simpl; try exact IH;
      split; congruence.
Qed.

Lemma auth_flag_tracks_user_witness :
  Auth.isAuthenticated
    (Auth.setLoading true
       (Auth.login (AuthUser.mk "u1" "a@b.c" "nick" "USER") Auth.initial)) = true
  <-> Auth.user
        (Auth.setLoading true
           (Auth.login (AuthUser.mk "u1" "a@b.c" "nick" "USER") Auth.initial))
      <> None.
Proof.
  apply auth_flag_tracks_user.
  exact (Auth.reachable_step
           (Auth.SetLoading true)
           (Auth.reachable_step
              (Auth.Login (AuthUser.mk "u1" "a@b.c" "nick" "USER"))
              Auth.reachable_initial)).
Defined.

(* ------------------------------------------------------------------ *)
(** ** The UI store: toasts and their timers                           *)
(* ------------------------------------------------------------------ *)

Lemma numberToString_injective (m n : N) :
  numberToString m = numberToString n -> m = n.
Proof.
  unfold numberToString. intros H.
  apply DecimalN.Unsigned.to_uint_inj.
  assert (E : Some (N.to_uint m) = Some (N.to_uint n)).
  { rewrite <- !NilEmpty.usu. now rewrite H. }
  now injection E.
Qed.

(** X17.  [removeToast(id)] keeps, in order, exactly the toasts whose
    id differs from [id], so none with that id is left, and it leaves
    the modal, the loading state and the sidebar as they were. *)
Theorem removeToast_removes_every_match (id : string) (s : UI.state) :
  Selects (fun toast => ToastMessage.id toast <> id)
          (UI.toasts s) (UI.toasts (UI.removeToast id s)) /\
  (forall toast, In toast (UI.toasts (UI.removeToast id s)) ->
                 ToastMessage.id toast <> id) /\
  UI.modal (UI.removeToast id s) = UI.modal s /\
  UI.loading (UI.removeToast id s) = UI.loading s /\
  UI.sidebarCollapsed (UI.removeToast id s) = UI.sidebarCollapsed s.
Proof.
  assert (K : forall toast,
             negb (String.eqb (ToastMessage.id toast) id) = true
             <-> ToastMessage.id toast <> id).
  { intros toast. rewrite negb_true_iff. apply String.eqb_neq. }
  simpl. repeat split.
  - now apply filter_Selects.
  - intros toast Hin. apply filter_In in Hin. now apply K.
Qed.

(** The timer [addToast] registers removes the id it gave the toast. *)
Lemma addToast_timer_removes (now : N) (toast : ToastInput.t) (s : UI.state)
      (timer : Timer.t) :
  snd (UI.addToast now toast s) = Some timer ->
  Timer.removes timer = numberToString now.
Proof.
  unfold UI.addToast. simpl.
  destruct (UI.autoDismiss toast); [|discriminate].
  destruct (ToastInput.duration toast); [|discriminate].
  now intros [= <-].
Qed.

(** X18.  [addToast] registers a timer exactly when the toast has a
    duration greater than zero; the timer then carries that duration
    and the id given to the toast, the decimal form of the clock
    reading.  With no duration, or one that is zero or negative, no
    timer is registered. *)
Theorem addToast_timer (now : N) (toast : ToastInput.t) (s : UI.state)
        (timer : Timer.t) :
  snd (UI.addToast now toast s) = Some timer <->
  exists d,
    ToastInput.duration toast = Some d /\ (0 < d)%Z /\
    timer = {| Timer.removes := numberToString now; Timer.delay := d |}.
Proof.
  unfold UI.addToast, UI.autoDismiss, numberTruthy. simpl.
  destruct (ToastInput.duration toast) as [d|].
  - destruct (Z.eqb_spec d 0) as [E|E]; simpl.
    + split; [discriminate|]. intros [d' [[= <-] [H _]]]. lia.
    + destruct (Z.ltb_spec 0 d) as [L|L].
      * split.
        -- intros [= <-]. exists d. auto.
        -- intros [d' [[= <-] [_ ->]]]. reflexivity.
      * split; [discriminate|]. intros [d' [[= <-] [H _]]]. lia.
  - split; [discriminate|]. intros [d [H _]]. discriminate.
Qed.

(** X19.  When no toast of the state carries the id the clock reading
    gives, adding a toast and then firing the timer it registered
    restores the state. *)
Theorem addToast_then_fire (now : N) (toast : ToastInput.t) (s : UI.state)
        (timer : Timer.t) :
  (forall t, In t (UI.toasts s) -> ToastMessage.id t <> numberToString now) ->
  snd (UI.addToast now toast s) = Some timer ->
  UI.fire timer (fst (UI.addToast now toast s)) = s.
Proof.
  intros Fresh H. apply addToast_timer_removes in H.
  unfold UI.fire, UI.removeToast. rewrite H. simpl.
  rewrite filter_app. simpl. rewrite String.eqb_refl. simpl.
  rewrite app_nil_r, filter_keeps_all.
  - now destruct s.
  - intros t Hin. apply negb_true_iff, String.eqb_neq. auto.
Qed.

Lemma addToast_then_fire_witness :
  UI.fire {| Timer.removes := "1700000000000"; Timer.delay := 3000%Z |}
          (fst (UI.addToast 1700000000000 timedToast UI.initial))
  = UI.initial.
Proof.
  apply (@addToast_then_fire 1700000000000 timedToast UI.initial).
  - intros t [].
  - reflexivity.
Defined.

(** X20.  Toast ids are clock readings, so two toasts added at the
    same reading share an id: removing by the id of the first toast
    takes the second with it exactly when both were added at the same
    reading, whatever the second toast's duration. *)
Theorem toasts_of_one_reading_share_an_id
        (n1 n2 : N) (t1 t2 : ToastInput.t) (s : UI.state) :
  let s2 := fst (UI.addToast n2 t2 (fst (UI.addToast n1 t1 s))) in
  let id1 := numberToString n1 in
  (n1 = n2 ->
   UI.toasts (UI.removeToast id1 s2) = UI.toasts (UI.removeToast id1 s)) /\
  (n1 <> n2 ->
   UI.toasts (UI.removeToast id1 s2)
   = (UI.toasts (UI.removeToast id1 s)
        ++ [UI.newToast t2 (numberToString n2)])%list).
Proof.
  cbv zeta. unfold UI.removeToast, UI.addToast.
  cbn [fst UI.toasts]. rewrite !filter_app.
  cbn [List.filter UI.newToast ToastMessage.id].
  rewrite String.eqb_refl. cbn [negb]. rewrite app_nil_r. split.
  - intros <-. rewrite String.eqb_refl. cbn [negb]. now rewrite app_nil_r.
  - intros H.
    destruct (String.eqb_spec (numberToString n2) (numberToString n1)) as [E|E].
    + apply numberToString_injective in E. congruence.
    + reflexivity.
Qed.

Lemma toasts_of_one_reading_share_an_id_witness :
  UI.toasts
    (UI.removeToast "5"
       (fst (UI.addToast 5 stickyToast (fst (UI.addToast 5 timedToast UI.initial)))))
  = [] /\
  UI.toasts
    (UI.removeToast "5"
       (fst (UI.addToast 6 stickyToast (fst (UI.addToast 5 timedToast UI.initial)))))
  = [UI.newToast stickyToast "6"].
Proof.
  split.
  - apply (proj1 (toasts_of_one_reading_share_an_id
                    5 5 timedToast stickyToast UI.initial)). reflexivity.
  - apply (proj2 (toasts_of_one_reading_share_an_id
                    5 6 timedToast stickyToast UI.initial)). discriminate.
Defined.

(** X21.  [toggleSidebar] is an involution: toggling twice restores the
    state. *)
Theorem toggleSidebar_twice (s : UI.state) :
  UI.toggleSidebar (UI.toggleSidebar s) = s.
Proof.
  destruct s as [m l t c]. unfold UI.toggleSidebar. simpl.
  now rewrite negb_involutive.
Qed.

(* ------------------------------------------------------------------ *)
(** ** The chat store                                                  *)
(* ------------------------------------------------------------------ *)

(** X22.  A run of [addMessage] calls appends one entry per call, in
    call order, behind the messages already there, and leaves
    [isTyping] and [currentPlaceId] as they were.  An entry takes its
    id from the argument when the argument carries one and from the
    first clock reading otherwise, its timestamp from the second clock
    reading, and its type, content and placeId from the argument. *)
Theorem addMessage_appends_in_order (calls : list Chat.call) (s : Chat.state) :
  Chat.messages (fold_left Chat.runCall calls s)
  = (Chat.messages s ++ map Chat.entryOf calls)%list /\
  Chat.isTyping (fold_left Chat.runCall calls s) = Chat.isTyping s /\
  Chat.currentPlaceId (fold_left Chat.runCall calls s) = Chat.currentPlaceId s /\
  (forall idClock stampClock message,
      let entry := Chat.entryOf (idClock, stampClock, message) in
      ChatEntry.id entry
      = match ChatInput.id message with
        | Some carried => carried
        | None => Defined (numberToString idClock)
        end /\
      ChatEntry.type entry = ChatInput.type message /\
      ChatEntry.content entry = ChatInput.content message /\
      ChatEntry.timestamp entry = stampClock /\
      ChatEntry.placeId entry = ChatInput.placeId message).
Proof.
  split; [|split; [|split]].
  - revert s. induction calls as [|c calls IH]; intros s; simpl.
    + now rewrite app_nil_r.
    + rewrite IH. simpl. now rewrite <- app_assoc.
  - revert s. induction calls as [|c calls IH]; intros s; simpl;
      [reflexivity | now rewrite IH].
  - revert s. induction calls as [|c calls IH]; intros s; simpl;
      [reflexivity | now rewrite IH].
  - intros idClock stampClock message. simpl.
    destruct (ChatInput.id message); repeat split.
Qed.

(* ------------------------------------------------------------------ *)
(** ** The settings store                                              *)
(* ------------------------------------------------------------------ *)

(** X23.  Two [updateSettings] calls in a row amount to one call with
    the keys of both, the later call winning on shared keys; repeating
    a call changes nothing; and [resetSettings] after any update gives
    the default settings. *)
Theorem updateSettings_composes (u1 u2 : AppSettings.partial)
        (s : Settings.state) :
  Settings.updateSettings u2 (Settings.updateSettings u1 s)
  = Settings.updateSettings (AppSettings.combine u1 u2) s /\
  Settings.updateSettings u1 (Settings.updateSettings u1 s)
  = Settings.updateSettings u1 s /\
  Settings.resetSettings (Settings.updateSettings u1 s) = Settings.initial.
Proof.
  destruct s as [a]. unfold Settings.updateSettings. cbn [Settings.settings].
  split; [|split].
  - f_equal. destruct u2 as [[?|] [?|] [?|] [?|] [?|]]; reflexivity.
  - f_equal. destruct u1 as [[?|] [?|] [?|] [?|] [?|]]; reflexivity.
  - reflexivity.
Qed.

(* ------------------------------------------------------------------ *)
(** ** [Array.prototype.filter] with a callback that may throw         *)
(* ------------------------------------------------------------------ *)

Lemma arrayFilter_kept {A} (cb : A -> completion jsval) (arr kept : list A) :
  arrayFilter cb arr = Normal kept ->
  Subsequence kept arr /\
  forall x, In x kept -> exists v, cb x = Normal v /\ toBoolean v = true.
Proof.
  revert kept. induction arr as [|a arr IH]; simpl; intros kept H.
  - injection H as <-. split; [constructor | intros x []].
  - destruct (cb a) as [v|] eqn:E; [|discriminate]. simpl in H.
    destruct (arrayFilter cb arr) as [k|]; [|discriminate]. simpl in H.
    injection H as <-. destruct (IH k eq_refl) as [S I].
    destruct (toBoolean v) eqn:T.
    + split; [now constructor|]. intros x [<-|Hx]; eauto.
    + split; [now constructor | exact I].
Qed.

Lemma arrayFilter_Throw {A} (cb : A -> completion jsval) (arr : list A) :
  arrayFilter cb arr = Throw -> exists x, In x arr /\ cb x = Throw.
Proof.
  induction arr as [|a arr IH]; simpl; [discriminate|].
  destruct (cb a) as [v|] eqn:E.
  - simpl. destruct (arrayFilter cb arr) as [k|]; [discriminate|].
    intros _. destruct (IH eq_refl) as [x [Hx Hc]]. eauto.
  - intros _. eauto.
Qed.

Lemma arrayFilter_map {A B} (f : A -> B) (cb : B -> completion jsval)
      (arr : list A) :
  arrayFilter cb (map f arr)
  = cbind (arrayFilter (fun x => cb (f x)) arr)
          (fun kept => Normal (map f kept)).
Proof.
  induction arr as [|a arr IH]; simpl; [reflexivity|].
  destruct (cb (f a)) as [v|]; simpl; [|reflexivity].
  rewrite IH. destruct (arrayFilter (fun x => cb (f x)) arr); simpl;
    [|reflexivity].
  now destruct (toBoolean v).
Qed.

(* ------------------------------------------------------------------ *)
(** ** The filter at run time                                          *)
(* ------------------------------------------------------------------ *)

(** The text callback throws only on a place whose name or address is
    [undefined]. *)
Lemma runtime_textCallback_Throw (q : string) (p : PlaceObject.t) :
  Runtime.textCallback q p = Throw ->
  PlaceObject.name p = Undefined \/ PlaceObject.address p = Undefined.
Proof.
  unfold Runtime.textCallback.
  destruct (PlaceObject.name p) as [n|]; [|auto].
  destruct (PlaceObject.address p) as [a|]; [|auto].
  cbn [slotString]. rewrite !lowerIncludes_string.
  destruct (PlaceObject.description p) as [[d|]|];
    destruct (PlaceObject.cuisine p) as [[c|]|];
    cbn [slotNullable ofNullable optionalChain];
    rewrite ?lowerIncludes_string;
    repeat match goal with
           | |- context [includes ?x ?y] => destruct (includes x y)
           end;
    cbn; discriminate.
Qed.

Lemma runtime_categoryStage_kept (c : option string) (P : list PlaceObject.t) :
  exists kept, Runtime.categoryStage c P = Normal kept /\ Subsequence kept P.
Proof.
  unfold Runtime.categoryStage. destruct (toBoolean (ofNullable c)).
  - rewrite (arrayFilter_Normal
               (Runtime.categoryCallback c)
               (fun p => strictEquals (slotString (PlaceObject.categoryId p))
                                      (ofNullable c)))
      by (intros p; eexists; split; reflexivity).
    eexists. split; [reflexivity | apply filter_Subsequence].
  - eexists. split; [reflexivity | apply Subsequence_refl].
Qed.

Lemma runtime_activeStage_kept (P : list PlaceObject.t) :
  exists kept,
    Runtime.activeStage P = Normal kept /\ Subsequence kept P /\
    forall p, In p kept -> PlaceObject.isActive p = Defined true.
Proof.
  unfold Runtime.activeStage.
  rewrite (arrayFilter_Normal Runtime.activeCallback
             (fun p => toBoolean (slotBool (PlaceObject.isActive p))))
    by (intros p; eexists; split; reflexivity).
  eexists. split; [reflexivity|]. split; [apply filter_Subsequence|].
  intros p Hin. apply filter_In in Hin. destruct Hin as [_ H].
  destruct (PlaceObject.isActive p) as [[|]|]; simpl in H;
    [reflexivity | discriminate | discriminate].
Qed.

(** The filter throws only under a non-blank query, and only on a list
    holding a place whose name or address is [undefined]. *)
Lemma runtime_filtered_Throw (P : list PlaceObject.t) (q : string)
      (c : option string) :
  Runtime.filtered P q c = Throw ->
  trim q <> "" /\
  exists p, In p P /\
            (PlaceObject.name p = Undefined \/ PlaceObject.address p = Undefined).
Proof.
  unfold Runtime.filtered, Runtime.textStage.
  destruct (String.eqb_spec (trim q) "") as [E|E]; simpl;
    [rewrite E | apply String.eqb_neq in E; rewrite E]; simpl.
  - destruct (runtime_categoryStage_kept c P) as [k [-> _]]. simpl.
    destruct (runtime_activeStage_kept k) as [k' [-> _]]. discriminate.
  - apply String.eqb_neq in E.
    destruct (arrayFilter (Runtime.textCallback q) P) as [t|] eqn:T; simpl.
    + destruct (runtime_categoryStage_kept c t) as [k [-> _]]. simpl.
      destruct (runtime_activeStage_kept k) as [k' [-> _]]. discriminate.
    + intros _. split; [exact E|].
      destruct (arrayFilter_Throw _ _ T) as [p [Hin Hp]].
      exists p. split; [exact Hin|]. now apply runtime_textCallback_Throw in Hp.
Qed.

(** A result of the filter is a subsequence of the list and holds
    places whose [isActive] is [true] only. *)
Lemma runtime_filtered_kept (P result : list PlaceObject.t) (q : string)
      (c : option string) :
  Runtime.filtered P q c = Normal result ->
  Subsequence result P /\
  forall p, In p result -> PlaceObject.isActive p = Defined true.
Proof.
  unfold Runtime.filtered. intros H.
  destruct (Runtime.textStage q P) as [t|] eqn:T; [|discriminate].
  simpl in H.
  destruct (runtime_categoryStage_kept c t) as [k [Hk Sk]].
  rewrite Hk in H. simpl in H.
  destruct (runtime_activeStage_kept k) as [k' [Hk' [Sk' A]]].
  rewrite Hk' in H. injection H as <-. split; [|exact A].
  apply Subsequence_trans with k; [exact Sk'|].
  apply Subsequence_trans with t; [exact Sk|].
  unfold Runtime.textStage in T.
  destruct (toBoolean (JString (trim q))).
  - now apply arrayFilter_kept in T.
  - injection T as <-. apply Subsequence_refl.
Qed.

(** Where the text stage can read every place, or is skipped, the
    filter completes. *)
Lemma runtime_filtered_safe (P : list PlaceObject.t) (q : string)
      (c : option string) :
  trim q = "" \/ Forall PlaceObject.textSafe P ->
  exists result, Runtime.filtered P q c = Normal result.
Proof.
  intros S. destruct (Runtime.filtered P q c) as [r|] eqn:E; [eauto|].
  exfalso. apply runtime_filtered_Throw in E.
  destruct E as [Hq [p [Hin Hp]]]. destruct S as [S|S]; [contradiction|].
  rewrite Forall_forall in S. destruct (S p Hin) as [[n Hn] [a Ha]].
  destruct Hp; congruence.
Qed.

(** On places of the declared type the filter at run time is the typed
    filter. *)
Lemma runtime_filtered_ofTyped (P : list Place.t) (q : string)
      (c : option string) :
  Runtime.filtered (map PlaceObject.ofTyped P) q c
  = cbind (filtered P q c)
          (fun result => Normal (map PlaceObject.ofTyped result)).
Proof.
  unfold Runtime.filtered, filtered, Runtime.textStage, textStage,
    Runtime.categoryStage, categoryStage, Runtime.activeStage, activeStage.
  destruct (toBoolean (JString (trim q)));
    [rewrite arrayFilter_map;
     change (fun x => Runtime.textCallback q (PlaceObject.ofTyped x))
       with (textCallback q);
     destruct (arrayFilter (textCallback q) P) as [t|]; [|reflexivity]
    | set (t := P)];
    cbn [cbind];
    (destruct (toBoolean (ofNullable c));
     [rewrite arrayFilter_map;
      change (fun x => Runtime.categoryCallback c (PlaceObject.ofTyped x))
        with (categoryCallback c);
      destruct (arrayFilter (categoryCallback c) t) as [k|]; [|reflexivity]
     | set (k := t)];
     cbn [cbind]; rewrite arrayFilter_map; reflexivity).
Qed.

(* ------------------------------------------------------------------ *)
(** ** The place store at run time                                     *)
(* ------------------------------------------------------------------ *)

(** [filterPlaces] replaces the view by the filter's result, or throws
    where the filter throws and leaves the state as it found it. *)
Lemma runtime_filterPlaces (s : Runtime.state) :
  Runtime.filterPlaces s
  = match Runtime.filtered (Runtime.places s) (Runtime.searchQuery s)
                           (Runtime.selectedCategoryId s) with
    | Normal result => Runtime.Done tt (Runtime.withView result s)
    | Throw => Runtime.Thrown s
    end.
Proof.
  unfold Runtime.filterPlaces, Runtime.bind, Runtime.get, Runtime.lift,
    Runtime.set.
  destruct (Runtime.filtered _ _ _); reflexivity.
Qed.

(** Every action is its writes followed, for all but two, by
    [filterPlaces]. *)
Lemma runtime_perform_written (a : Runtime.action) (s : Runtime.state) :
  Runtime.perform a s
  = if Runtime.refilters a
    then Runtime.filterPlaces (Runtime.written a s)
    else Runtime.Done tt (Runtime.written a s).
Proof.
  destruct a; try reflexivity.
  cbn [Runtime.perform Runtime.refilters Runtime.written].
  unfold Runtime.removePlace, Runtime.bind, Runtime.get, Runtime.lift.
  rewrite (arrayFilter_Normal
             _ (fun place =>
                  negb (strictEquals (slotString (PlaceObject.id place))
                                     (JString id))))
    by (intros p; eexists; split; reflexivity).
  reflexivity.
Qed.

(** The writes of an action leave the view alone. *)
Lemma runtime_written_view (a : Runtime.action) (s : Runtime.state) :
  Runtime.filteredPlaces (Runtime.written a s) = Runtime.filteredPlaces s.
Proof. destruct a; reflexivity. Qed.

(** However [filterPlaces] ends, it changes no field but the view. *)
Lemma runtime_after_filterPlaces (s : Runtime.state) :
  let s' := Runtime.after Runtime.filterPlaces s in
  Runtime.places s' = Runtime.places s /\
  Runtime.categories s' = Runtime.categories s /\
  Runtime.selectedPlace s' = Runtime.selectedPlace s /\
  Runtime.searchQuery s' = Runtime.searchQuery s /\
  Runtime.selectedCategoryId s' = Runtime.selectedCategoryId s.
Proof.
  unfold Runtime.after. rewrite runtime_filterPlaces.
  destruct (Runtime.filtered _ _ _); simpl; auto.
Qed.

(** The places an action leaves are the places it wrote. *)
Lemma runtime_after_places (a : Runtime.action) (s : Runtime.state) :
  Runtime.places (Runtime.after (Runtime.perform a) s)
  = Runtime.places (Runtime.written a s).
Proof.
  unfold Runtime.after at 1. rewrite runtime_perform_written.
  destruct (Runtime.refilters a); [|reflexivity].
  apply (runtime_after_filterPlaces (Runtime.written a s)).
Qed.

(** After an action either the view is up to date, or the filter
    throws on the fields the action left and the view is the old
    one. *)
Lemma runtime_refilter_outcome (a : Runtime.action) (s : Runtime.state) :
  Runtime.refilters a = true ->
  (exists s', Runtime.perform a s = Runtime.Done tt s' /\
              Runtime.consistent s') \/
  (exists s', Runtime.perform a s = Runtime.Thrown s' /\
              Runtime.filterThrows s' /\
              Runtime.filteredPlaces s' = Runtime.filteredPlaces s).
Proof.
  intros R. rewrite runtime_perform_written, R, runtime_filterPlaces.
  unfold Runtime.consistent, Runtime.filterThrows.
  destruct (Runtime.filtered _ _ _) as [result|] eqn:E.
  - left. eexists. split; [reflexivity|]. exact E.
  - right. eexists. split; [reflexivity|]. split; [exact E|].
    apply runtime_written_view.
Qed.

Lemma runtime_reachable_view (s : Runtime.state) :
  Runtime.reachable s ->
  (Runtime.consistent s \/ Runtime.filterThrows s) /\
  forall p, In p (Runtime.filteredPlaces s) ->
            PlaceObject.isActive p = Defined true.
Proof.
  induction 1 as [|a s _ [IH IA]].
  - split; [left; reflexivity | intros p []].
  - destruct (Runtime.refilters a) eqn:R.
    + unfold Runtime.after.
      destruct (runtime_refilter_outcome a s R)
        as [[s' [-> C]] | [s' [-> [T V]]]].
      * split; [now left|].
        exact (proj2 (@runtime_filtered_kept _ _ _ _ C)).
      * split; [now right|]. now rewrite V.
    + unfold Runtime.after. rewrite runtime_perform_written, R.
      destruct a; try discriminate R; split; try exact IA; exact IH.
Qed.

(* ------------------------------------------------------------------ *)
(** ** The cached view                                                 *)
(* ------------------------------------------------------------------ *)

(** C9.  Each of setPlaces, setSearchQuery, setSelectedCategory,
    addPlace, updatePlace and removePlace either completes in a state
    whose [filteredPlaces] is the filter's result on its [places],
    [searchQuery] and [selectedCategoryId], or throws in
    [filterPlaces], leaving a state on whose fields the filter throws
    and whose [filteredPlaces] is the one from before the action.  In
    every reachable state [filteredPlaces] is the filter's result
    unless the filter throws on the state's fields.  The filter throws
    only under a non-blank query and only on a place whose name or
    address is [undefined]. *)
Theorem cached_view_consistent :
  (forall a s,
      Runtime.changesFilterInput a = true ->
      (exists s', Runtime.perform a s = Runtime.Done tt s' /\
                  Runtime.consistent s') \/
      (exists s', Runtime.perform a s = Runtime.Thrown s' /\
                  Runtime.filterThrows s' /\
                  Runtime.filteredPlaces s' = Runtime.filteredPlaces s)) /\
  (forall s,
      Runtime.reachable s -> Runtime.consistent s \/ Runtime.filterThrows s) /\
  (forall s,
      Runtime.filterThrows s ->
      trim (Runtime.searchQuery s) <> "" /\
      exists p,
        In p (Runtime.places s) /\
        (PlaceObject.name p = Undefined \/ PlaceObject.address p = Undefined)).
Proof.
  split; [|split].
  - intros a s H. apply runtime_refilter_outcome. now destruct a.
  - intros s R. now apply runtime_reachable_view.
  - intros s. apply runtime_filtered_Throw.
Qed.

Lemma cached_view_consistent_witness :
  Runtime.consistent searchingAndong \/ Runtime.filterThrows searchingAndong.
Proof.
  apply (proj1 (proj2 cached_view_consistent)).
  exact (Runtime.reachable_step
           (Runtime.SetSearchQuery "andong")
           (Runtime.reachable_step
              (Runtime.SetPlaces [PlaceObject.ofTyped hahoeHouse])
              Runtime.reachable_initial)).
Defined.

(** [updatePlace("p1", { name: undefined })] under the query ["andong"]
    writes [places] and then throws in [filterPlaces]: the state it
    leaves is reachable, holds the updated place, still shows the place
    as it was in [filteredPlaces], and is not consistent. *)
Lemma cached_view_stale_after_throw :
  Runtime.reachable searchingAndong /\
  exists s',
    Runtime.updatePlace "p1" nameUndefined searchingAndong = Runtime.Thrown s' /\
    Runtime.reachable s' /\
    Runtime.places s'
    = [PlaceObject.spread (PlaceObject.ofTyped hahoeHouse) nameUndefined] /\
    Runtime.filteredPlaces s' = [PlaceObject.ofTyped hahoeHouse] /\
    ~ Runtime.consistent s'.
Proof.
  assert (R : Runtime.reachable searchingAndong).
  { exact (Runtime.reachable_step
             (Runtime.SetSearchQuery "andong")
             (Runtime.reachable_step
                (Runtime.SetPlaces [PlaceObject.ofTyped hahoeHouse])
                Runtime.reachable_initial)). }
  split; [exact R|].
  exists (Runtime.after (Runtime.updatePlace "p1" nameUndefined) searchingAndong).
  split; [reflexivity|]. split.
  - exact (Runtime.reachable_step (Runtime.UpdatePlace "p1" nameUndefined) R).
  - repeat split. unfold Runtime.consistent. vm_compute. discriminate.
Qed.

(* ------------------------------------------------------------------ *)
(** ** [updatePlace] at run time                                       *)
(* ------------------------------------------------------------------ *)

Lemma runtime_id_matches (id : string) (p : PlaceObject.t) :
  strictEquals (slotString (PlaceObject.id p)) (JString id) = true
  <-> PlaceObject.id p = Defined id.
Proof.
  destruct (PlaceObject.id p) as [i|]; simpl.
  - rewrite String.eqb_eq. split; congruence.
  - split; discriminate.
Qed.

Lemma runtime_after_updatePlace (id : string) (updates : PlaceObject.partial)
      (s : Runtime.state) :
  Runtime.places (Runtime.after (Runtime.updatePlace id updates) s)
  = map (Runtime.updateOne id updates) (Runtime.places s).
Proof. apply (runtime_after_places (Runtime.UpdatePlace id updates)). Qed.

(** C10.  In the state [updatePlace(id, updates)] leaves, whether it
    completed or threw in [filterPlaces], [places] has the length it
    had and, position by position, holds the merge of the old element
    with [updates] where the element's id is [id] and the old element
    itself elsewhere; the merge takes each field from [updates] when
    the key is present, whatever it holds, and from the place
    otherwise; when no element has the id the list is unchanged. *)
Theorem updatePlace_changes_only_matching_places
        (s : Runtime.state) (id : string) (updates : PlaceObject.partial) :
  let s' := Runtime.after (Runtime.updatePlace id updates) s in
  List.length (Runtime.places s') = List.length (Runtime.places s) /\
  (forall i p,
      nth_error (Runtime.places s) i = Some p ->
      (PlaceObject.id p = Defined id ->
       nth_error (Runtime.places s') i = Some (PlaceObject.spread p updates)) /\
      (PlaceObject.id p <> Defined id ->
       nth_error (Runtime.places s') i = Some p)) /\
  (forall p,
      let merged := PlaceObject.spread p updates in
      PlaceObject.id merged
      = match PlaceObject.id' updates with
        | Some v => v | None => PlaceObject.id p end /\
      PlaceObject.name merged
      = match PlaceObject.name' updates with
        | Some v => v | None => PlaceObject.name p end /\
      PlaceObject.address merged
      = match PlaceObject.address' updates with
        | Some v => v | None => PlaceObject.address p end /\
      PlaceObject.description merged
      = match PlaceObject.description' updates with
        | Some v => v | None => PlaceObject.description p end /\
      PlaceObject.cuisine merged
      = match PlaceObject.cuisine' updates with
        | Some v => v | None => PlaceObject.cuisine p end /\
      PlaceObject.categoryId merged
      = match PlaceObject.categoryId' updates with
        | Some v => v | None => PlaceObject.categoryId p end /\
      PlaceObject.isActive merged
      = match PlaceObject.isActive' updates with
        | Some v => v | None => PlaceObject.isActive p end /\
      PlaceObject.latitude merged
      = match PlaceObject.latitude' updates with
        | Some v => v | None => PlaceObject.latitude p end /\
      PlaceObject.longitude merged
      = match PlaceObject.longitude' updates with
        | Some v => v | None => PlaceObject.longitude p end /\
      PlaceObject.category merged
      = match PlaceObject.category' updates with
        | Some v => v | None => PlaceObject.category p end /\
      PlaceObject.images merged
      = match PlaceObject.images' updates with
        | Some v => v | None => PlaceObject.images p end /\
      PlaceObject.chatHistories merged
      = match PlaceObject.chatHistories' updates with
        | Some v => v | None => PlaceObject.chatHistories p end) /\
  ((forall p, In p (Runtime.places s) -> PlaceObject.id p <> Defined id) ->
   Runtime.places s' = Runtime.places s).
Proof.
  cbv zeta. rewrite runtime_after_updatePlace.
  split; [apply length_map|]. split; [|split].
  - intros i p Hi. rewrite nth_error_map, Hi. cbn [option_map].
    unfold Runtime.updateOne. split; intros H.
    + apply runtime_id_matches in H. now rewrite H.
    + destruct (strictEquals _ _) eqn:E; [|reflexivity].
      apply runtime_id_matches in E. contradiction.
  - intros p. repeat split.
  - intros H. rewrite <- (map_id (Runtime.places s)) at 2.
    apply map_ext_in. intros p Hin. unfold Runtime.updateOne.
    destruct (strictEquals _ _) eqn:E; [|reflexivity].
    apply runtime_id_matches in E. now apply H in Hin.
Qed.

Lemma updatePlace_changes_only_matching_places_witness :
  nth_error
    (Runtime.places
       (Runtime.after (Runtime.updatePlace "p1" nameUndefined) searchingAndong))
    0
  = Some (PlaceObject.spread (PlaceObject.ofTyped hahoeHouse) nameUndefined).
Proof.
  apply (proj1 (proj2 (updatePlace_changes_only_matching_places
                         searchingAndong "p1" nameUndefined))
               0 (PlaceObject.ofTyped hahoeHouse) eq_refl).
  reflexivity.
Defined.

(** X10.  When [updates] carries no [id] key, [updatePlace] leaves the
    sequence of ids of [places] as it was, whether it completes or
    throws. *)
Theorem updatePlace_preserves_ids (s : Runtime.state) (id : string)
        (updates : PlaceObject.partial) :
  PlaceObject.id' updates = None ->
  map PlaceObject.id
      (Runtime.places (Runtime.after (Runtime.updatePlace id updates) s))
  = map PlaceObject.id (Runtime.places s).
Proof.
  intros H. rewrite runtime_after_updatePlace, map_map.
  apply map_ext. intros p. unfold Runtime.updateOne.
  destruct (strictEquals _ _); [|reflexivity]. simpl. now rewrite H.
Qed.

Lemma updatePlace_preserves_ids_witness :
  map PlaceObject.id
      (Runtime.places
         (Runtime.after (Runtime.updatePlace "p1" nameUndefined) searchingAndong))
  = map PlaceObject.id (Runtime.places searchingAndong).
Proof. apply updatePlace_preserves_ids. reflexivity. Defined.

(* ------------------------------------------------------------------ *)
(** ** When the actions complete, and what the view holds              *)
(* ------------------------------------------------------------------ *)

(** X5.  An action of the place store completes whenever the state it
    leaves has a blank query or holds only places whose name and
    address are strings. *)
Theorem place_actions_complete (a : Runtime.action) (s : Runtime.state) :
  Runtime.safe (Runtime.after (Runtime.perform a) s) ->
  exists s', Runtime.perform a s = Runtime.Done tt s'.
Proof.
  unfold Runtime.after. rewrite runtime_perform_written.
  destruct (Runtime.refilters a); [|eauto].
  rewrite runtime_filterPlaces.
  destruct (Runtime.filtered _ _ _) as [result|] eqn:E; [eauto|].
  intros S. destruct (runtime_filtered_safe _ (Runtime.selectedCategoryId
                                                 (Runtime.written a s)) S)
    as [result C].
  congruence.
Qed.

Lemma place_actions_complete_witness :
  exists s',
    Runtime.perform (Runtime.UpdatePlace "p1" renamed) searchingAndong
    = Runtime.Done tt s'.
Proof.
  apply place_actions_complete. right.
  repeat constructor; eexists; reflexivity.
Defined.

(** X15.  In every reachable state the cached view holds only places
    whose [isActive] is [true]; and it is a subsequence of [places]
    unless the filter throws on the state's fields. *)
Theorem reachable_view_within_places (s : Runtime.state) :
  Runtime.reachable s ->
  (forall p, In p (Runtime.filteredPlaces s) ->
             PlaceObject.isActive p = Defined true) /\
  (~ Runtime.filterThrows s ->
   Subsequence (Runtime.filteredPlaces s) (Runtime.places s)).
Proof.
  intros R. destruct (runtime_reachable_view R) as [[C|T] A].
  - split; [exact A|]. intros _.
    exact (proj1 (@runtime_filtered_kept _ _ _ _ C)).
  - split; [exact A | contradiction].
Qed.

Lemma reachable_view_within_places_witness :
  (forall p, In p (Runtime.filteredPlaces searchingAndong) ->
             PlaceObject.isActive p = Defined true) /\
  (~ Runtime.filterThrows searchingAndong ->
   Subsequence (Runtime.filteredPlaces searchingAndong)
               (Runtime.places searchingAndong)).
Proof.
  apply reachable_view_within_places.
  exact (Runtime.reachable_step
           (Runtime.SetSearchQuery "andong")
           (Runtime.reachable_step
              (Runtime.SetPlaces [PlaceObject.ofTyped hahoeHouse])
              Runtime.reachable_initial)).
Defined.

(* ------------------------------------------------------------------ *)
(** ** The typed store within the store at run time                    *)
(* ------------------------------------------------------------------ *)

Lemma Defined_override {T} (old : T) (new : option T) :
  Defined (override old new) = override (Defined old) (option_map Defined new).
Proof. destruct new; reflexivity. Qed.

Lemma slotOfOptional_override {T} (old : option T) (new : option (option T)) :
  slotOfOptional (override old new)
  = override (slotOfOptional old) (option_map slotOfOptional new).
Proof. destruct new; reflexivity. Qed.

Lemma ofTyped_spread (p : Place.t) (u : Place.partial) :
  PlaceObject.ofTyped (Place.spread p u)
  = PlaceObject.spread (PlaceObject.ofTyped p) (PlaceObject.ofPartial u).
Proof.
  unfold PlaceObject.ofTyped, PlaceObject.spread, PlaceObject.ofPartial,
    Place.spread.
  cbn -[override].
  f_equal; first [apply Defined_override | apply slotOfOptional_override].
Qed.

Lemma ofTyped_updateOne (id : string) (u : Place.partial) (p : Place.t) :
  Runtime.updateOne id (PlaceObject.ofPartial u) (PlaceObject.ofTyped p)
  = PlaceObject.ofTyped (updateOne id u p).
Proof.
  unfold Runtime.updateOne, updateOne. cbn [PlaceObject.ofTyped PlaceObject.id
    slotString strictEquals].
  destruct (String.eqb (Place.id p) id); [|reflexivity].
  symmetry. apply ofTyped_spread.
Qed.

Lemma filter_map_commute {A B} (f : A -> B) (keep : B -> bool) (l : list A) :
  List.filter keep (map f l) = map f (List.filter (fun x => keep (f x)) l).
Proof.
  induction l as [|x l IH]; simpl; [reflexivity|].
  destruct (keep (f x)); simpl; now rewrite IH.
Qed.

(** On a state whose places have the declared type, [filterPlaces] at
    run time completes with the typed view. *)
Lemma runtime_filterPlaces_typed (X : Runtime.state) (P : list Place.t) :
  Runtime.places X = map PlaceObject.ofTyped P ->
  Runtime.filterPlaces X
  = Runtime.Done tt
      (Runtime.withView
         (map PlaceObject.ofTyped
              (List.filter (passesb (Runtime.searchQuery X)
                                    (Runtime.selectedCategoryId X)) P))
         X).
Proof.
  intros H. rewrite runtime_filterPlaces, H, runtime_filtered_ofTyped,
    filtered_passesb.
  reflexivity.
Qed.

(** On states and arguments of the declared types the store at run
    time does what the typed store does: where the typed action ends in
    [s'], the action at run time completes in [s'] too. *)
Lemma runtime_agrees_on_typed (a : action) (s s' : PlaceState) :
  exec (perform a) s = Normal s' ->
  Runtime.perform (runtimeAction a) (runtimeOfTyped s)
  = Runtime.Done tt (runtimeOfTyped s').
Proof.
  rewrite runtime_perform_written.
  destruct a; cbn [perform runtimeAction Runtime.refilters].
  - rewrite exec_setPlaces. intros [= <-].
    now rewrite runtime_filterPlaces_typed with (P := newPlaces) by reflexivity.
  - intros [= <-]. reflexivity.
  - intros [= <-]. reflexivity.
  - rewrite exec_setSearchQuery. intros [= <-].
    now rewrite runtime_filterPlaces_typed with (P := places s) by reflexivity.
  - rewrite exec_setSelectedCategory. intros [= <-].
    now rewrite runtime_filterPlaces_typed with (P := places s) by reflexivity.
  - rewrite exec_addPlace. intros [= <-].
    rewrite (runtime_filterPlaces_typed _ (places s ++ [place])%list).
    + unfold Runtime.withView, runtimeOfTyped. cbn. now rewrite map_app.
    + cbn. now rewrite map_app.
  - rewrite exec_updatePlace_closed. intros [= <-].
    assert (E : map (Runtime.updateOne id (PlaceObject.ofPartial updates))
                    (map PlaceObject.ofTyped (places s))
                = map PlaceObject.ofTyped (map (updateOne id updates) (places s))).
    { rewrite !map_map. apply map_ext. intros p. apply ofTyped_updateOne. }
    rewrite (runtime_filterPlaces_typed _ (map (updateOne id updates) (places s))).
    + unfold Runtime.withView, runtimeOfTyped. cbn. now rewrite E.
    + cbn. exact E.
  - rewrite exec_removePlace_closed. intros [= <-].
    assert (E : List.filter
                  (fun place =>
                     negb (strictEquals (slotString (PlaceObject.id place))
                                        (JString id)))
                  (map PlaceObject.ofTyped (places s))
                = map PlaceObject.ofTyped
                      (List.filter
                         (fun place => negb (String.eqb (Place.id place) id))
                         (places s))).
    { exact (filter_map_commute
               PlaceObject.ofTyped
               (fun place =>
                  negb (strictEquals (slotString (PlaceObject.id place))
                                     (JString id)))
               (places s)). }
    rewrite (runtime_filterPlaces_typed
               _ (List.filter (fun place => negb (String.eqb (Place.id place) id))
                              (places s))).
    + unfold Runtime.withView, runtimeOfTyped. cbn. now rewrite E.
    + cbn. exact E.
  - rewrite exec_filterPlaces_closed. intros [= <-].
    now rewrite runtime_filterPlaces_typed with (P := places s) by reflexivity.
Qed.
